(** * ReplayBuffer of labs/04/wrappers.py

    A shallow embedding of the [ReplayBuffer] class: the Python object is a
    record of its three attributes, every method is a function from the
    object before the call to the outcome of the call (a value or a raised
    exception) paired with the object after it, since Python keeps the
    mutations made before an exception is raised.

    Python integers are [Z]; the underlying Python [list] is a Rocq list
    read and written through [list_getitem] and [list_setitem], which spell
    out Python's treatment of negative and out-of-range indices. *)

From stdpp Require Import base numbers list.

Local Open Scope Z_scope.

(** ** Python values and exceptions *)

(** The exceptions the methods of the class can raise. *)
Inductive exn : Set :=
  | IndexError
  | ZeroDivisionError
  | AssertionError
  | ValueError.

(** The outcome of evaluating an expression: a value or a raised exception. *)
Inductive result (R : Type) : Type :=
  | Ok (r : R)
  | Raise (e : exn).
Arguments Ok {R} r.
Arguments Raise {R} e.

Definition is_ok {R} (r : result R) : bool :=
  match r with Ok _ => true | Raise _ => false end.

(** [a % b] on Python integers: floored, the sign of the result follows the
    divisor (as [Z.modulo] does), and a zero divisor raises. *)
Definition py_mod (a b : Z) : result Z :=
  if b =? 0 then Raise ZeroDivisionError else Ok (a `mod` b).

(** The position a Python list of length [n] resolves the index [i] to:
    a negative index counts from the end, anything still outside
    [0, n) is out of range. *)
Definition py_index (n : nat) (i : Z) : option nat :=
  let j := if i <? 0 then i + Z.of_nat n else i in
  if (0 <=? j) && (j <? Z.of_nat n) then Some (Z.to_nat j) else None.

Section PyList.
Context {A : Type}.

(** [l[i]] *)
Definition list_getitem (l : list A) (i : Z) : result A :=
  match py_index (length l) i with
  | Some p => match l !! p with Some x => Ok x | None => Raise IndexError end
  | None => Raise IndexError
  end.

(** [l[i] = x] *)
Definition list_setitem (l : list A) (i : Z) (x : A) : result (list A) :=
  match py_index (length l) i with
  | Some p => Ok (<[p:=x]> l)
  | None => Raise IndexError
  end.

(** [[l[i] for i in idxs]]: the comprehension stops at the first index
    that raises. *)
Fixpoint list_getitems (l : list A) (idxs : list Z) : result (list A) :=
  match idxs with
  | [] => Ok []
  | i :: rest =>
      match list_getitem l i with
      | Raise e => Raise e
      | Ok x =>
          match list_getitems l rest with
          | Raise e => Raise e
          | Ok xs => Ok (x :: xs)
          end
      end
  end.
End PyList.

(** ** The random generator

    [sample] receives the generator as an argument ([np.random] by default)
    and calls one of two of its methods once.  A generator, in the state it
    is in when [sample] is called, is what these two calls would return. *)
Record Generator : Type := {
  (** [generator.randint(high, size=size)] *)
  randint : Z -> Z -> result (list Z);
  (** [generator.choice(n, size=size, replace=False)] *)
  choice : Z -> Z -> result (list Z);
}.

(** What NumPy documents of the two methods: [randint(high, size)] draws
    [size] integers from [0, high); [choice(n, size, replace=False)] draws
    [size] different integers from [0, n) and raises [ValueError] when that
    many do not exist. *)
Record numpy_contract (g : Generator) : Prop := {
  randint_returns : forall high size,
    0 < high -> 0 <= size -> is_ok (randint g high size) = true;
  randint_range : forall high size idxs,
    randint g high size = Ok idxs ->
    Z.of_nat (length idxs) = size /\ Forall (fun i => 0 <= i < high) idxs;
  choice_returns : forall n size,
    0 <= size <= n -> is_ok (choice g n size) = true;
  choice_range : forall n size idxs,
    choice g n size = Ok idxs ->
    Z.of_nat (length idxs) = size /\ NoDup idxs /\
    Forall (fun i => 0 <= i < n) idxs;
  choice_too_many : forall n size,
    0 <= n < size -> choice g n size = Raise ValueError;
}.

(** A generator without randomness, for running [sample]: [randint] repeats
    [seed % high] and [choice] counts down from [size - 1]. *)
Definition fixed_generator (seed : Z) : Generator := {|
  randint high size :=
    if (0 <? high) && (0 <=? size)
    then Ok (replicate (Z.to_nat size) (seed `mod` high))
    else Raise ValueError;
  choice n size :=
    if (0 <=? size) && (size <=? n)
    then Ok (reverse (Z.of_nat <$> seq 0 (Z.to_nat size)))
    else Raise ValueError;
|}.

(** ** The class *)

Section ReplayBuffer.
Context {A : Type}.

(** The attributes of a [ReplayBuffer] object. *)
Record ReplayBuffer : Type := mkReplayBuffer {
  _max_length : option Z;
  _data : list A;
  _offset : Z;
}.

(** [__init__(self, max_length=None)] *)
Definition __init__ (max_length : option Z) : ReplayBuffer :=
  {| _max_length := max_length; _data := []; _offset := 0 |}.

(** [__len__(self)] *)
Definition __len__ (self : ReplayBuffer) : Z :=
  Z.of_nat (length (_data self)).

(** The property [max_length]. *)
Definition max_length (self : ReplayBuffer) : option Z := _max_length self.

(** The two statements [self._data[self._offset] = item] and
    [self._offset = (self._offset + 1) % self._max_length], which
    [append] and the loop of [extend] both contain; [m] is the value of
    [self._max_length].  The first statement may raise before anything
    is changed, the second after the slot has been written. *)
Definition overwrite (m : Z) (item : A) (self : ReplayBuffer)
  : result unit * ReplayBuffer :=
  match list_setitem (_data self) (_offset self) item with
  | Raise e => (Raise e, self)
  | Ok data =>
      let self := {| _max_length := _max_length self; _data := data;
                     _offset := _offset self |} in
      match py_mod (_offset self + 1) m with
      | Raise e => (Raise e, self)
      | Ok offset =>
          (Ok (), {| _max_length := _max_length self; _data := _data self;
                     _offset := offset |})
      end
  end.

(** [self._data.append(item)] *)
Definition data_append (item : A) (self : ReplayBuffer) : ReplayBuffer :=
  {| _max_length := _max_length self; _data := _data self ++ [item];
     _offset := _offset self |}.

(** [append(self, item)] *)
Definition append (item : A) (self : ReplayBuffer)
  : result unit * ReplayBuffer :=
  match _max_length self with
  | Some m =>
      if __len__ self >=? m
      then overwrite m item self
      else (Ok (), data_append item self)
  | None => (Ok (), data_append item self)
  end.

(** The [for item in items] loop of [extend], entered when
    [self._max_length] is [m]. *)
Fixpoint extend_loop (m : Z) (items : list A) (self : ReplayBuffer)
  : result unit * ReplayBuffer :=
  match items with
  | [] => (Ok (), self)
  | item :: items =>
      let step :=
        if __len__ self >=? m
        then overwrite m item self
        else (Ok (), data_append item self) in
      match step with
      | (Ok _, self) => extend_loop m items self
      | (Raise e, self) => (Raise e, self)
      end
  end.

(** [extend(self, items)] *)
Definition extend (items : list A) (self : ReplayBuffer)
  : result unit * ReplayBuffer :=
  match _max_length self with
  | None =>
      (Ok (), {| _max_length := _max_length self;
                 _data := _data self ++ items;
                 _offset := _offset self |})
  | Some m => extend_loop m items self
  end.

(** [__getitem__(self, index)]; the method changes nothing. *)
Definition __getitem__ (index : Z) (self : ReplayBuffer) : result A :=
  if (- __len__ self <=? index) && (index <? __len__ self)
  then
    match py_mod (_offset self + index) (__len__ self) with
    | Raise e => Raise e
    | Ok i => list_getitem (_data self) i
    end
  else Raise AssertionError.

(** [sample(self, size, generator, replace)]; the method changes nothing
    of the buffer. *)
Definition sample (size : Z) (generator : Generator) (replace : bool)
    (self : ReplayBuffer) : result (list A) :=
  if replace
  then
    match randint generator (__len__ self) size with
    | Raise e => Raise e
    | Ok idxs => list_getitems (_data self) idxs
    end
  else
    match choice generator (__len__ self) size with
    | Raise e => Raise e
    | Ok idxs => list_getitems (_data self) idxs
    end.

(** ** Sequences of calls *)

(** [for item in items: self.append(item)], stopping at the first call
    that raises. *)
Fixpoint appends (items : list A) (self : ReplayBuffer)
  : result unit * ReplayBuffer :=
  match items with
  | [] => (Ok (), self)
  | item :: items =>
      match append item self with
      | (Ok _, self) => appends items self
      | (Raise e, self) => (Raise e, self)
      end
  end.

(** [for item in items: try: self.append(item) except: pass]: every call
    is made, whatever the earlier ones did. *)
Definition appends_all (items : list A) (self : ReplayBuffer)
  : ReplayBuffer :=
  foldl (fun self item => (append item self).2) self items.

(** The states a buffer created with [max_length] can be in, with the
    items its [append] and [extend] calls were given so far, in order.
    A call that raised is counted with all the items it was given. *)
Inductive reaches (max_length : option Z)
  : list A -> ReplayBuffer -> Prop :=
  | reaches_init : reaches max_length [] (__init__ max_length)
  | reaches_append given self item :
      reaches max_length given self ->
      reaches max_length (given ++ [item]) (append item self).2
  | reaches_extend given self items :
      reaches max_length given self ->
      reaches max_length (given ++ items) (extend items self).2.

(** ** The logical view *)

(** The retained items from the oldest to the newest: the storage read
    circularly from the write cursor. *)
Definition contents (self : ReplayBuffer) : list A :=
  rotate (Z.to_nat (_offset self)) (_data self).

(** The last [n] elements of a list (all of it when it is shorter). *)
Definition keep_last (n : nat) (l : list A) : list A :=
  drop (length l - n) l.

(** What a buffer created with [max_length] retains of the items it was
    given. *)
Definition retained (max_length : option Z) (given : list A) : list A :=
  match max_length with
  | None => given
  | Some m => keep_last (Z.to_nat m) given
  end.

(** The representation invariant: the cursor is 0 until the storage has
    grown to the capacity, then it stays inside the storage; the storage
    never outgrows a capacity. *)
Definition wf (self : ReplayBuffer) : Prop :=
  (_offset self = 0 \/
   (_max_length self = Some (__len__ self) /\
    0 <= _offset self < __len__ self)) /\
  (forall m, _max_length self = Some m -> __len__ self <= Z.max m 0).

(** A buffer in a state of a buffer created with [cap] that was given
    [given]: the capacity is the one it was created with, the invariant
    holds and the logical view is what such a buffer retains. *)
Definition represents (cap : option Z) (given : list A)
    (self : ReplayBuffer) : Prop :=
  _max_length self = cap /\ wf self /\ contents self = retained cap given.

(** The three ways a call of [append] can go on a well-formed buffer. *)
Inductive append_case (item : A) (self : ReplayBuffer) : Prop :=
  | append_grows :
      (_max_length self = None \/
       exists m, _max_length self = Some m /\ __len__ self < m) ->
      _offset self = 0 ->
      append item self = (Ok (), data_append item self) ->
      append_case item self
  | append_overwrites m :
      _max_length self = Some m ->
      0 < m -> __len__ self = m -> 0 <= _offset self < m ->
      append item self =
        (Ok (), {| _max_length := Some m;
                   _data := <[Z.to_nat (_offset self):=item]> (_data self);
                   _offset := (_offset self + 1) `mod` m |}) ->
      append_case item self
  | append_raises m :
      _max_length self = Some m ->
      m <= 0 -> _data self = [] -> _offset self = 0 ->
      append item self = (Raise IndexError, self) ->
      append_case item self.
End ReplayBuffer.

Arguments ReplayBuffer A : clear implicits.

(** The number of items a buffer created with [cap] holds after it was
    given [n] of them. *)
Definition bound (cap : option Z) (n : Z) : Z :=
  match cap with Some C => Z.min n C | None => n end.

(** * DiscretizationWrapper of labs/04/wrappers.py

    The wrapper turns a vector of floating-point observations into the
    index of a cell of a grid (and, with tiles, into one index per tile).
    Its arithmetic on indices is on integers and is modelled as such.  The
    floating-point operations and [np.digitize] are taken from NumPy as an
    interface, [Floats]: the methods below are the code over any
    implementation of it.

    Python's integers are unbounded and modelled by [Z].  The indices that
    [np.digitize] returns and the ones stored in the [np.int64] array are
    64-bit; [Z] is exact for them as long as the number of states of the
    observation space is below [2^63], which the theorems on [observation]
    assume ([fits_int64]). *)

(** Sequencing of outcomes: the first exception raised is the outcome. *)
#[global] Instance result_ret : MRet result := fun _ x => Ok x.
#[global] Instance result_bind : MBind result := fun _ _ f m =>
  match m with Ok x => f x | Raise e => Raise e end.

(** [[f(x) for x in l]], which stops at the first [f(x)] that raises. *)
Fixpoint comprehension {A B} (f : A -> result B) (l : list A)
  : result (list B) :=
  match l with
  | [] => Ok []
  | x :: l => y ← f x; ys ← comprehension f l; Ok (y :: ys)
  end.

(** The operations of NumPy and of Python's floats that the wrapper uses,
    on a type [V] of floating-point values. *)
Class Floats (V : Type) : Type := {
  (** the literal [0], where a float is expected *)
  fzero : V;
  (** [np.inf] *)
  finf : V;
  (** [a + b] *)
  fadd : V -> V -> V;
  (** [a - b] *)
  fsub : V -> V -> V;
  (** [k * a] for an integer [k] *)
  fmul_int : Z -> V -> V;
  (** [a / k] for an integer [k], which raises for some kinds of floats
      when [k] is 0 *)
  fdiv_int : V -> Z -> result V;
  (** [a > b] *)
  fgt : V -> V -> bool;
  (** [np.digitize(x, bins)] *)
  digitize : V -> list V -> result Z;
}.

(** What NumPy documents of [np.digitize]: the index it returns is
    between 0 and the number of bins, both included. *)
Definition digitize_contract (V : Type) `{Floats V} : Prop :=
  forall (x : V) bins d,
    digitize x bins = Ok d -> 0 <= d <= Z.of_nat (length bins).

(** Integers standing in for floats, to run the wrapper: [np.digitize] is
    the number of bins that are at most [x], as it is for increasing
    bins. *)
Definition integer_floats : Floats Z := {|
  fzero := 0;
  finf := 2 ^ 62;
  fadd := Z.add;
  fsub := Z.sub;
  fmul_int := Z.mul;
  fdiv_int a k := py_mod 0 k ≫= fun _ => Ok (a `div` k);
  fgt := Z.gtb;
  digitize x bins := Ok (Z.of_nat (length (filter (fun b => b <= x) bins)));
|}.

Module DiscretizationWrapper.
Section WithFloats.
Context {V : Type} `{Floats V}.

(** What the wrapper passes to [gym.spaces.Discrete] or to
    [gym.spaces.MultiDiscrete] for its [observation_space]. *)
Inductive space : Type :=
  | Discrete (n : Z)
  | MultiDiscrete (nvec : list Z).

(** The attributes that [__init__] sets only when [tiles] is not
    [None]. *)
Record tiling : Type := {
  _tiles : Z;
  _first_tile_states : Z;
  _rest_tiles_states : Z;
  _separator_offsets : list V;
  _separator_tops : list V;
}.

(** The attributes of a wrapper; [_tiling] is [None] when [_tiles] is. *)
Record wrapper : Type := {
  _separators : list (list V);
  _tiling : option tiling;
  observation_space : space;
}.

(** [0 if len(s) <= 1 else (s[1] - s[0]) / tiles] *)
Definition separator_offset (tiles : Z) (s : list V) : result V :=
  match s with
  | s0 :: s1 :: _ => fdiv_int (fsub s1 s0) tiles
  | _ => Ok fzero
  end.

(** [np.inf if len(s) <= 1 else s[-1] + (s[1] - s[0])] *)
Definition separator_top (s : list V) : V :=
  match s with
  | s0 :: s1 :: rest => fadd (List.last rest s1) (fsub s1 s0)
  | _ => finf
  end.

(** [__init__(self, env, separators, tiles=None)] *)
Definition __init__ (separators : list (list V)) (tiles : option Z)
  : result wrapper :=
  match tiles with
  | None =>
      let states :=
        foldl (fun states separator =>
                 states * (1 + Z.of_nat (length separator))) 1 separators in
      Ok {| _separators := separators; _tiling := None;
            observation_space := Discrete states |}
  | Some tiles =>
      let '(first_tile_states, rest_tiles_states) :=
        foldl (fun '(first, rest) separator =>
                 (first * (1 + Z.of_nat (length separator)),
                  rest * (2 + Z.of_nat (length separator))))
              (1, 1) separators in
      let space :=
        MultiDiscrete
          ((fun i => first_tile_states + i * rest_tiles_states)
             <$> seqZ 0 tiles) in
      offsets ← comprehension (separator_offset tiles) separators;
      let tops := separator_top <$> separators in
      Ok {| _separators := separators;
            _tiling := Some {| _tiles := tiles;
                               _first_tile_states := first_tile_states;
                               _rest_tiles_states := rest_tiles_states;
                               _separator_offsets := offsets;
                               _separator_tops := tops |};
            observation_space := space |}
  end.

(** The loop over [zip(observations, self._separators)], from [state]. *)
Fixpoint first_tile (state : Z) (pairs : list (V * list V)) : result Z :=
  match pairs with
  | [] => Ok state
  | (observation, separator) :: pairs =>
      let state := state * (1 + Z.of_nat (length separator)) in
      d ← digitize observation separator;
      first_tile (state + d) pairs
  end.

(** The loop over [range(len(self._separators))] for the tile [t], from
    the index [i] and [state], [separators] being the separators from [i]
    on. *)
Fixpoint rest_tile (tile : tiling) (observations : list V) (t : Z)
    (i : Z) (state : Z) (separators : list (list V)) : result Z :=
  match separators with
  | [] => Ok state
  | separator :: separators =>
      let state := state * (2 + Z.of_nat (length separator)) in
      observation ← list_getitem observations i;
      k ← py_mod (t * (2 * i + 1)) (_tiles tile);
      offset ← list_getitem (_separator_offsets tile) i;
      let value := fadd observation (fmul_int k offset) in
      top ← list_getitem (_separator_tops tile) i;
      if fgt value top
      then rest_tile tile observations t (i + 1)
             (state + (1 + Z.of_nat (length separator))) separators
      else
        d ← digitize value separator;
        rest_tile tile observations t (i + 1) (state + d) separators
  end.

(** What [observation] returns: one index, or the array of the indices of
    the tiles. *)
Inductive indices : Type :=
  | State (state : Z)
  | States (states : list Z).

(** [observation(self, observations)] *)
Definition observation (self : wrapper) (observations : list V)
  : result indices :=
  state ← first_tile 0 (zip observations (_separators self));
  match _tiling self with
  | None => Ok (State state)
  | Some tile =>
      (* [np.empty(self._tiles, dtype=np.int64)] *)
      if _tiles tile <? 0 then Raise ValueError
      (* [states[0] = state] *)
      else if _tiles tile =? 0 then Raise IndexError
      else
        rest ← comprehension
          (fun t =>
             state ← rest_tile tile observations t 0 0 (_separators self);
             Ok (_first_tile_states tile
                 + (t - 1) * _rest_tiles_states tile + state))
          (seqZ 1 (_tiles tile - 1));
        Ok (States (state :: rest))
  end.

(** The number of cells of a grid with [extra + len(separator)] intervals
    on the axis of each separator. *)
Definition cells (extra : Z) (separators : list (list V)) : Z :=
  foldl (fun n separator => n * (extra + Z.of_nat (length separator)))
        1 separators.

(** The number of states of the space: the bound below which every index
    is, and which has to fit in 64 bits. *)
Definition space_size (s : space) : Z :=
  match s with
  | Discrete n => n
  | MultiDiscrete nvec => List.last nvec 0
  end.

Definition fits_int64 (s : space) : Prop := space_size s < 2 ^ 63.
End WithFloats.
End DiscretizationWrapper.

(** * The wrappers of CartPole and MountainCar

    Their separators are the inner points of [np.linspace], which is taken
    from NumPy as a function [linspace]; a float literal such as [-2.4] is
    [decimal (-24) 1], the float nearest to [-24 / 10^1]. *)

(** [array[1:-1]] *)
Definition inner_points {V} (array : list V) : list V :=
  drop 1 (take (length array - 1) array).

(** [np.linspace(low, high, num=bins + 1)[1:-1]] *)
Definition inner_linspace {V} (linspace : V -> V -> Z -> result (list V))
    (low high : V) (bins : Z) : result (list V) :=
  array ← linspace low high (bins + 1); Ok (inner_points array).

(** What NumPy documents of [np.linspace]: it returns [num] samples. *)
Definition linspace_contract {V}
    (linspace : V -> V -> Z -> result (list V)) : Prop :=
  forall low high num array,
    linspace low high num = Ok array -> Z.of_nat (length array) = num.

(** A stand-in for [np.linspace] on the integers standing in for floats:
    [num] samples, or [ValueError] for a negative [num]. *)
Definition integer_linspace (low high num : Z) : result (list Z) :=
  if num <? 0 then Raise ValueError
  else Ok ((fun i => low + i * (high - low)) <$> seqZ 0 num).

Module DiscreteCartPoleWrapper.
Section WithFloats.
Context {V : Type} `{Floats V}.
Context (linspace : V -> V -> Z -> result (list V)) (decimal : Z -> nat -> V).

(** [__init__(self, env, bins=8)] *)
Definition __init__ (bins : Z) : result DiscretizationWrapper.wrapper :=
  position ← inner_linspace linspace (decimal (-24) 1) (decimal 24 1) bins;
  velocity ← inner_linspace linspace (decimal (-3) 0) (decimal 3 0) bins;
  angle ← inner_linspace linspace (decimal (-2) 1) (decimal 2 1) bins;
  angle_velocity ←
    inner_linspace linspace (decimal (-2) 0) (decimal 2 0) bins;
  DiscretizationWrapper.__init__
    [position; velocity; angle; angle_velocity] None.
End WithFloats.
End DiscreteCartPoleWrapper.

Module DiscreteMountainCarWrapper.
Section WithFloats.
Context {V : Type} `{Floats V}.
Context (linspace : V -> V -> Z -> result (list V)) (decimal : Z -> nat -> V).

(** [__init__(self, env, bins=None, tiles=None)] *)
Definition __init__ (bins tiles : option Z)
  : result DiscretizationWrapper.wrapper :=
  let bins :=
    match bins with
    | Some bins => bins
    | None =>
        match tiles with
        | None => 24
        | Some tiles =>
            if tiles <=? 1 then 24 else if tiles <=? 3 then 12 else 8
        end
    end in
  position ← inner_linspace linspace (decimal (-12) 1) (decimal 6 1) bins;
  velocity ← inner_linspace linspace (decimal (-7) 2) (decimal 7 2) bins;
  DiscretizationWrapper.__init__ [position; velocity] tiles.
End WithFloats.
End DiscreteMountainCarWrapper.

(** * typed_torch_function of labs/04/wrappers.py

    The decorator checks the declared types when it is applied; a call of
    the decorated function checks the number of positional arguments,
    converts them to tensors, calls the function and maps its result with
    [structural_map].  Torch and NumPy are taken as they are used: a tensor
    and an array are values of two types [tensor] and [ndarray], the
    conversions are functions between them. *)

Module TypedTorchFunction.

(** What can be given as a type to the decorator: one of the five torch
    dtypes that are keys of [type_map], or any other object. *)
Inductive type_ (other : Type) : Type :=
  | torch_float32
  | torch_float64
  | torch_int32
  | torch_int64
  | torch_bool
  | other_object (o : other).
Arguments torch_float32 {other}.
Arguments torch_float64 {other}.
Arguments torch_int32 {other}.
Arguments torch_int64 {other}.
Arguments torch_bool {other}.
Arguments other_object {other} o.

(** The other names torch gives to four of these dtypes. *)
Definition torch_float {other} : type_ other := torch_float32.
Definition torch_double {other} : type_ other := torch_float64.
Definition torch_int {other} : type_ other := torch_int32.
Definition torch_long {other} : type_ other := torch_int64.

(** The values of [type_map]. *)
Inductive np_type : Set :=
  | np_float32
  | np_float64
  | np_int32
  | np_int64
  | py_bool.

(** [type_map.get(type_)] *)
Definition type_map {other} (t : type_ other) : option np_type :=
  match t with
  | torch_float32 => Some np_float32
  | torch_float64 => Some np_float64
  | torch_int32 => Some np_int32
  | torch_int64 => Some np_int64
  | torch_bool => Some py_bool
  | other_object _ => None
  end.

(** The outcome of a call of the decorated function: it returns, or the
    decorator raises, or an exception of the conversions or of the wrapped
    function, of some type [E], goes through. *)
Inductive outcome (E R : Type) : Type :=
  | Returned (r : R)
  | Raised (e : exn)
  | Propagated (e : E).
Arguments Returned {E R} r.
Arguments Raised {E R} e.
Arguments Propagated {E R} e.

Section WithTorch.
Context {tensor ndarray key other : Type}.

(** The values a wrapped function can return, as [structural_map] tells
    them apart with [isinstance]: a tensor, a tuple, a list, a dictionary
    (its items in order) or anything else; an array is something else.  Of
    a tuple, a list or a dictionary the model keeps the elements or items,
    which is what [structural_map] reads and builds a plain tuple, list or
    dictionary of. *)
#[local] Unset Elimination Schemes.
Inductive value : Type :=
  | Tensor (t : tensor)
  | Tuple (elements : list value)
  | List (elements : list value)
  | Dict (items : list (key * value))
  | NDArray (a : ndarray)
  | Other (o : other).
#[local] Set Elimination Schemes.

(** [value.numpy(force=True)] *)
Context (numpy : tensor -> ndarray).

(** [structural_map(value)] *)
Fixpoint structural_map (v : value) : value :=
  match v with
  | Tensor t => NDArray (numpy t)
  | Tuple elements => Tuple (structural_map <$> elements)
  | List elements => List (structural_map <$> elements)
  | Dict items =>
      Dict ((fun item => (item.1, structural_map item.2)) <$> items)
  | NDArray a => NDArray a
  | Other o => Other o
  end.

(** Whether a tensor is an element of the value, of one of its elements
    or of a value of one of its items, and so on. *)
Fixpoint has_tensor (v : value) : bool :=
  match v with
  | Tensor _ => true
  | Tuple elements => existsb has_tensor elements
  | List elements => existsb has_tensor elements
  | Dict items => existsb (fun item => has_tensor item.2) items
  | NDArray _ => false
  | Other _ => false
  end.

(** The first loop of [typed_torch_function(device, *types)], which
    raises for a type that is not a key of [type_map], and the list
    [types] that the decorator then keeps. *)
Fixpoint typed_torch_function (types : list (type_ other))
  : result (list np_type) :=
  match types with
  | [] => Ok []
  | t :: types =>
      match type_map t with
      | None => Raise ValueError
      | Some np =>
          match typed_torch_function types with
          | Raise e => Raise e
          | Ok nps => Ok (np :: nps)
          end
      end
  end.

Context {arg kwargs E : Type}.

(** [torch.from_numpy(np.asarray(arg, typ)).to(device=device)] *)
Context (to_tensor : arg -> np_type -> E + tensor).

(** [[to_tensor(arg, typ) for arg, typ in pairs]] *)
Fixpoint to_tensors (pairs : list (arg * np_type)) : E + list tensor :=
  match pairs with
  | [] => inr []
  | (a, typ) :: pairs =>
      match to_tensor a typ with
      | inl e => inl e
      | inr t =>
          match to_tensors pairs with
          | inl e => inl e
          | inr ts => inr (t :: ts)
          end
      end
  end.

(** [TypedTorchFunctionWrapper.__call__(self, *args, **kwargs)], for the
    wrapper of [wrapped] made by a decorator that keeps [types]. *)
Definition __call__ (types : list np_type)
    (wrapped : list tensor -> kwargs -> E + value)
    (args : list arg) (kw : kwargs) : outcome E value :=
  (* [check_typed_torch_function(self.__wrapped__, args)] *)
  if negb (length types =? length args)%nat then Raised AssertionError
  else
    match to_tensors (zip args types) with
    | inl e => Propagated e
    | inr tensors =>
        match wrapped tensors kw with
        | inl e => Propagated e
        | inr v => Returned (structural_map v)
        end
    end.
End WithTorch.
End TypedTorchFunction.

(** * EvaluationEnv of labs/04/wrappers.py

    The wrapper counts the episodes of an environment and ends the process
    when enough of them were evaluated.  The object is the record of its
    attributes, together with the [render_mode] of the wrapped environment,
    which its methods set.  What the wrapped environment answers to a call
    of [step], and what pygame answers, is an argument of the method; the
    lines it prints are part of its outcome.  Returns are floats, of which
    only the literal [0] and the addition are used.  The calls that only
    concern the wrapped environment (seeding it, resetting it, closing it)
    are assumed to return and leave no trace in the object. *)

Module EvaluationEnv.

(** What a method raises: [RuntimeError], or the [SystemExit] of
    [sys.exit]. *)
Inductive raised : Set :=
  | RuntimeError
  | SystemExit (code : Z).

Inductive outcome : Set :=
  | Returns
  | Raises (e : raised).

(** [returns[-n:]]: the last [n] items for a positive [n], all of them for
    [n = 0], and all but the first [-n] for a negative [n]. *)
Definition slice_from_minus {R} (n : Z) (returns : list R) : list R :=
  if 0 <? n then drop (length returns - Z.to_nat n) returns
  else drop (Z.to_nat (- n)) returns.

(** A render mode: ["human"], or another value. *)
Inductive mode (M : Type) : Type :=
  | human
  | other_mode (m : M).
Arguments human {M}.
Arguments other_mode {M} m.

(** [render_mode == "human"] *)
Definition is_human {M} (m : mode M) : bool :=
  match m with human => true | other_mode _ => false end.

Section WithReturns.
Context {R M : Type} (rzero : R) (radd : R -> R -> R).

(** The attributes; [_episode_return] does not exist before the first
    [reset], which nothing can tell from its being [None], as [step] reads
    it only when an episode is running.  [_pygame] tells whether the
    attribute is the module rather than [None]. *)
Record evaluation_env : Type := {
  _render_each : Z;
  _evaluate_for : Z;
  _report_each : Z;
  _report_verbose : bool;
  _episode_running : bool;
  _episode_returns : list R;
  _evaluating_from : option Z;
  _original_render_mode : mode M;
  _pygame : bool;
  _episode_return : option R;
  render_mode : mode M;
}.

(** The two lines printed: the report every [report_each] episodes, with
    the returns its mean and deviation are taken of and, when verbose, the
    returns it lists; and the line that ends an evaluation. *)
Inductive line : Type :=
  | Report (episode evaluate_for : Z) (window : list R)
      (listed : option (list R))
  | Evaluation (evaluate_for : Z) (window : list R).

(** [__init__(self, env, seed, render_each, evaluate_for, report_each)],
    [verbose] being whether the variable VERBOSE is neither empty nor 0,
    [env_render_mode] being [env.render_mode] and [unwrapped_render_mode]
    the render mode of the wrapped environment at that time. *)
Definition __init__ (render_each evaluate_for report_each : Z)
    (verbose : bool) (env_render_mode unwrapped_render_mode : mode M)
  : evaluation_env :=
  {| _render_each := render_each;
     _evaluate_for := evaluate_for;
     _report_each := report_each;
     _report_verbose := verbose;
     _episode_running := false;
     _episode_returns := [];
     _evaluating_from := None;
     _original_render_mode := env_render_mode;
     _pygame := negb (render_each =? 0);
     _episode_return := None;
     render_mode := unwrapped_render_mode |}.

(** The property [episode]. *)
Definition episode (self : evaluation_env) : Z :=
  Z.of_nat (length (_episode_returns self)).

(** [reset(self, *, start_evaluation, logging, seed, options)]; [seeded]
    tells whether [seed] is not [None]. *)
Definition reset (start_evaluation logging seeded : bool)
    (self : evaluation_env) : outcome * evaluation_env :=
  if seeded then (Raises RuntimeError, self)
  else if bool_decide (_evaluating_from self <> None)
          && _episode_running self
  then (Raises RuntimeError, self)
  else
    let evaluating_from :=
      if start_evaluation && bool_decide (_evaluating_from self = None)
      then Some (episode self)
      else _evaluating_from self in
    let render_mode :=
      if logging && negb (_render_each self =? 0)
         && ((episode self + 1) `mod` _render_each self =? 0)
      then human
      else if negb (_render_each self =? 0)
      then _original_render_mode self
      else render_mode self in
    let episode_return :=
      if logging || bool_decide (evaluating_from <> None)
      then Some rzero else None in
    (Returns,
     {| _render_each := _render_each self;
        _evaluate_for := _evaluate_for self;
        _report_each := _report_each self;
        _report_verbose := _report_verbose self;
        _episode_running := true;
        _episode_returns := _episode_returns self;
        _evaluating_from := evaluating_from;
        _original_render_mode := _original_render_mode self;
        _pygame := _pygame self;
        _episode_return := episode_return;
        render_mode := render_mode |}).

(** [step(self, action)], when the wrapped environment answers with
    [reward], [terminated] and [truncated], pygame is initialized or not
    and has an event QUIT or not.  Of [self.close()] before [sys.exit(0)]
    the object keeps nothing. *)
Definition step (reward : R) (terminated truncated : bool)
    (pygame_init quit : bool) (self : evaluation_env)
  : outcome * evaluation_env * list line :=
  if negb (_episode_running self) then (Raises RuntimeError, self, [])
  else
    let done := terminated || truncated in
    let episode_return :=
      match _episode_return self with
      | Some r => Some (radd r reward)
      | None => None
      end in
    let episode_returns :=
      match episode_return with
      | Some r =>
          if done then _episode_returns self ++ [r]
          else _episode_returns self
      | None => _episode_returns self
      end in
    let self :=
      {| _render_each := _render_each self;
         _evaluate_for := _evaluate_for self;
         _report_each := _report_each self;
         _report_verbose := _report_verbose self;
         _episode_running := negb done;
         _episode_returns := episode_returns;
         _evaluating_from := _evaluating_from self;
         _original_render_mode := _original_render_mode self;
         _pygame := _pygame self;
         _episode_return := episode_return;
         render_mode := render_mode self |} in
    let counted :=
      bool_decide (episode_return <> None) && done in
    let report :=
      if counted && negb (_report_each self =? 0)
         && (episode self `mod` _report_each self =? 0)
      then [Report (episode self) (_evaluate_for self)
              (slice_from_minus (_evaluate_for self) (_episode_returns self))
              (if _report_verbose self
               then Some (slice_from_minus (_report_each self)
                            (_episode_returns self))
               else None)]
      else [] in
    let finished :=
      counted &&
      match _evaluating_from self with
      | Some from => _evaluate_for self + from <=? episode self
      | None => false
      end in
    if finished
    then (Raises (SystemExit 0), self,
          report ++ [Evaluation (_evaluate_for self)
                       (slice_from_minus (_evaluate_for self)
                          (_episode_returns self))])
    else
      let render_mode :=
        if _pygame self && is_human (render_mode self) && pygame_init
           && quit
        then _original_render_mode self
        else render_mode self in
      (Returns,
       {| _render_each := _render_each self;
          _evaluate_for := _evaluate_for self;
          _report_each := _report_each self;
          _report_verbose := _report_verbose self;
          _episode_running := _episode_running self;
          _episode_returns := _episode_returns self;
          _evaluating_from := _evaluating_from self;
          _original_render_mode := _original_render_mode self;
          _pygame := _pygame self;
          _episode_return := _episode_return self;
          render_mode := render_mode |},
       report).

(** A call of one of the two methods. *)
Inductive call : Type :=
  | call_reset (start_evaluation logging seeded : bool)
  | call_step (reward : R) (terminated truncated pygame_init quit : bool).

(** The outcome of a call and the object after it. *)
Definition run_call (c : call) (self : evaluation_env)
  : outcome * evaluation_env :=
  match c with
  | call_reset start_evaluation logging seeded =>
      reset start_evaluation logging seeded self
  | call_step reward terminated truncated pygame_init quit =>
      (step reward terminated truncated pygame_init quit self).1
  end.

(** The states the object can be in while the process runs: the one after
    [__init__], and the one after a call that did not end the process
    (a [RuntimeError] can be caught). *)
Inductive reachable (self0 : evaluation_env) : evaluation_env -> Prop :=
  | reachable_init : reachable self0 self0
  | reachable_call self c :
      reachable self0 self ->
      (forall code, (run_call c self).1 <> Raises (SystemExit code)) ->
      reachable self0 (run_call c self).2.

(** What holds of the object in every state, as shown below: an evaluation
    started at an episode that was finished by then, has not reached its
    end (when it is to last for one episode at least), and the return of an
    episode that runs during it is tracked. *)
Definition evaluating (self : evaluation_env) : Prop :=
  forall from, _evaluating_from self = Some from ->
    0 <= from <= episode self /\
    (1 <= _evaluate_for self -> episode self < from + _evaluate_for self) /\
    (_episode_running self = true -> _episode_return self <> None).
End WithReturns.
End EvaluationEnv.

(** * Facts *)

(** ** Python lists *)

Lemma py_index_Some n i p :
  py_index n i = Some p <->
  (0 <= i < Z.of_nat n /\ p = Z.to_nat i) \/
  (- Z.of_nat n <= i < 0 /\ p = Z.to_nat (i + Z.of_nat n)).
Proof.
  unfold py_index. destruct (Z.ltb_spec i 0); cbv zeta.
  - destruct (Z.leb_spec 0 (i + Z.of_nat n)),
      (Z.ltb_spec (i + Z.of_nat n) (Z.of_nat n)); simpl;
      (split; [intros Hp; try discriminate; injection Hp as <-; lia|]);
      intros [[? ->]|[? ->]]; try lia; reflexivity.
  - destruct (Z.leb_spec 0 i), (Z.ltb_spec i (Z.of_nat n)); simpl;
      (split; [intros Hp; try discriminate; injection Hp as <-; lia|]);
      intros [[? ->]|[? ->]]; try lia; reflexivity.
Qed.

Lemma py_index_None n i :
  py_index n i = None <-> i < - Z.of_nat n \/ Z.of_nat n <= i.
Proof.
  destruct (py_index n i) as [p|] eqn:Hi.
  - apply py_index_Some in Hi. split; [discriminate|lia].
  - split; [intros _|done].
    destruct (Z.lt_ge_cases i (- Z.of_nat n)); [by left|].
    destruct (Z.lt_ge_cases i (Z.of_nat n)); [|by right].
    destruct (Z.lt_ge_cases i 0).
    + assert (py_index n i = Some (Z.to_nat (i + Z.of_nat n))) as Hs
        by (apply py_index_Some; lia).
      congruence.
    + assert (py_index n i = Some (Z.to_nat i)) as Hs
        by (apply py_index_Some; lia).
      congruence.
Qed.

Lemma py_index_nat n p :
  (p < n)%nat -> py_index n (Z.of_nat p) = Some p.
Proof. intros Hp. apply py_index_Some. left. lia. Qed.

Lemma py_index_lt n i p : py_index n i = Some p -> (p < n)%nat.
Proof. rewrite py_index_Some. lia. Qed.

Section PyListFacts.
Context {A : Type}.
Implicit Types (l : list A) (x : A) (i : Z) (p : nat).

Lemma list_getitem_Ok l i x :
  list_getitem l i = Ok x <->
  exists p, py_index (length l) i = Some p /\ l !! p = Some x.
Proof.
  unfold list_getitem. destruct (py_index (length l) i) as [p|] eqn:Hi.
  - destruct (l !! p) as [y|] eqn:Hp; split.
    + intros [= ->]. eauto.
    + intros (q & [= <-] & Hq). congruence.
    + discriminate.
    + intros (q & [= <-] & Hq). congruence.
  - split; [discriminate|]. intros (q & ? & _). discriminate.
Qed.

Lemma list_getitem_nat l p :
  (p < length l)%nat ->
  exists x, list_getitem l (Z.of_nat p) = Ok x /\ l !! p = Some x.
Proof.
  intros Hp. destruct (lookup_lt_is_Some_2 l p Hp) as [x Hx].
  exists x. split; [|done]. apply list_getitem_Ok. exists p.
  split; [by apply py_index_nat|done].
Qed.

Lemma list_getitem_lookup l p x :
  l !! p = Some x -> list_getitem l (Z.of_nat p) = Ok x.
Proof.
  intros Hx. apply list_getitem_Ok. exists p. split; [|done].
  apply py_index_nat. by eapply lookup_lt_Some.
Qed.

Lemma list_setitem_Ok l i x l' :
  list_setitem l i x = Ok l' <->
  exists p, py_index (length l) i = Some p /\ l' = <[p:=x]> l.
Proof.
  unfold list_setitem. destruct (py_index (length l) i) as [p|]; split.
  - intros [= <-]. eauto.
  - intros (q & [= <-] & ->). done.
  - discriminate.
  - intros (q & ? & _). discriminate.
Qed.

Lemma list_setitem_nil i x : list_setitem (@nil A) i x = Raise IndexError.
Proof.
  unfold list_setitem.
  destruct (py_index (length (@nil A)) i) as [p|] eqn:Hi; [|done].
  apply py_index_lt in Hi. simpl in Hi. lia.
Qed.

(** The comprehension over indices that are all in range returns the
    items at these positions, one for one. *)
Lemma list_getitems_in_range l idxs :
  Forall (fun i => 0 <= i < Z.of_nat (length l)) idxs ->
  exists xs, list_getitems l idxs = Ok xs /\
    Forall2 (fun i x => 0 <= i /\ l !! Z.to_nat i = Some x) idxs xs.
Proof.
  induction 1 as [|i idxs Hi _ (xs & IH & Hxs)]; simpl.
  - exists []. split; [done|constructor].
  - destruct (list_getitem_nat l (Z.to_nat i)) as (x & Hx & Hl); [lia|].
    rewrite Z2Nat.id in Hx by lia. rewrite Hx, IH.
    exists (x :: xs). split; [done|]. constructor; [|done].
    split; [lia|done].
Qed.
End PyListFacts.

(** ** Circular reading *)

Section Circular.
Context {A : Type}.
Implicit Types (l given : list A) (x : A) (n o : nat).

Lemma rotate_0 l : rotate 0 l = l.
Proof.
  unfold rotate. rewrite Nat.Div0.mod_0_l, drop_0, take_0.
  apply app_nil_r.
Qed.

Lemma rotate_mod l n : rotate (n `mod` length l) l = rotate n l.
Proof. unfold rotate. by rewrite Nat.Div0.mod_mod. Qed.

(** Writing the slot under the cursor and moving the cursor one slot on
    drops the oldest item and makes the written one the newest. *)
Lemma rotate_overwrite l o x :
  (o < length l)%nat ->
  rotate (S o) (<[o:=x]> l) = drop 1 (rotate o l) ++ [x].
Proof.
  intros Ho. destruct (lookup_lt_is_Some_2 l o Ho) as [y Hy].
  pose proof (take_drop_middle l o y Hy) as Hl.
  assert (length (take o l) = o) as Hlen by (rewrite length_take; lia).
  assert (<[o:=x]> l = take o l ++ x :: drop (S o) l) as Hins.
  { rewrite <- Hl at 1. rewrite insert_app_r_alt by lia.
    by rewrite Hlen, Nat.sub_diag. }
  assert (rotate o l = y :: drop (S o) l ++ take o l) as ->.
  { unfold rotate. rewrite Nat.mod_small by done.
    rewrite <- Hl at 1. by rewrite drop_app_length'. }
  simpl. rewrite drop_0.
  unfold rotate. rewrite length_insert.
  destruct (decide (S o = length l)) as [Heq|Hne].
  - replace (S o `mod` length l)%nat with 0%nat
      by (rewrite Heq; symmetry; apply Nat.Div0.mod_same).
    rewrite drop_0, take_0, app_nil_r, Hins.
    by rewrite (drop_ge l (S o)) by lia.
  - rewrite Nat.mod_small by lia. rewrite Hins.
    rewrite (cons_middle x), app_assoc.
    assert (S o = length (take o l ++ [x])) as Hso
      by (rewrite length_app, Hlen; simpl; lia).
    rewrite drop_app_length', take_app_length' by done.
    by rewrite app_assoc.
Qed.

(** The cursor after an overwrite, as a position. *)
Lemma cursor_step (o : Z) n :
  0 <= o < Z.of_nat n ->
  Z.to_nat ((o + 1) `mod` Z.of_nat n) = (S (Z.to_nat o) `mod` n)%nat.
Proof.
  intros Ho. rewrite Z2Nat.inj_mod by lia. rewrite Nat2Z.id.
  f_equal. lia.
Qed.

Lemma keep_last_length n l : length (keep_last n l) = (length l `min` n)%nat.
Proof. unfold keep_last. rewrite length_drop. lia. Qed.

Lemma keep_last_all n l : (length l <= n)%nat -> keep_last n l = l.
Proof.
  intros Hn. unfold keep_last.
  replace (length l - n)%nat with 0%nat by lia. apply drop_0.
Qed.

Lemma keep_last_0 l : keep_last 0 l = [].
Proof. unfold keep_last. rewrite Nat.sub_0_r. apply drop_all. Qed.

Lemma keep_last_snoc_grow n l x :
  (length l < n)%nat -> keep_last n (l ++ [x]) = keep_last n l ++ [x].
Proof.
  intros Hn. rewrite !keep_last_all; [done|lia|].
  rewrite length_app. simpl. lia.
Qed.

Lemma keep_last_snoc_full n l x :
  (0 < n <= length l)%nat ->
  keep_last n (l ++ [x]) = drop 1 (keep_last n l) ++ [x].
Proof.
  intros Hn. unfold keep_last. rewrite drop_drop, length_app. simpl.
  rewrite drop_app_le by lia. f_equal. f_equal. lia.
Qed.

Lemma keep_last_lookup n l i :
  (i < length l `min` n)%nat ->
  keep_last n l !! i = l !! (length l - length l `min` n + i)%nat.
Proof.
  intros Hi. unfold keep_last. rewrite lookup_drop. f_equal. lia.
Qed.

Lemma retained_length (cap : option Z) given :
  length (retained cap given) =
  match cap with
  | None => length given
  | Some m => (length given `min` Z.to_nat m)%nat
  end.
Proof. destruct cap; simpl; [apply keep_last_length|done]. Qed.

Lemma retained_nonpositive m given : m <= 0 -> retained (Some m) given = [].
Proof.
  intros Hm. simpl. replace (Z.to_nat m) with 0%nat by lia.
  apply keep_last_0.
Qed.
End Circular.

(** ** The methods, case by case *)

Section Methods.
Context {A : Type}.
Implicit Types (self : ReplayBuffer A) (item x : A) (items given : list A).
Implicit Types (cap : option Z) (m index : Z).

Lemma contents_length self : length (contents self) = length (_data self).
Proof. apply length_rotate. Qed.

Lemma append_cases item self : wf self -> append_case item self.
Proof.
  intros [Hoff Hlen].
  destruct (_max_length self) as [m|] eqn:Hm.
  - specialize (Hlen m eq_refl).
    destruct (Z.geb_spec (__len__ self) m) as [Hge|Hlt].
    + assert ((__len__ self >=? m) = true) as Hfull
        by (rewrite Z.geb_leb; apply Z.leb_le; lia).
      destruct (decide (__len__ self = 0)) as [H0|Hne].
      * assert (_data self = []) as Hdata
          by (apply length_zero_iff_nil; unfold __len__ in H0; lia).
        eapply append_raises; [done|lia|done|lia|].
        unfold append, overwrite.
        by rewrite Hm, Hfull, Hdata, list_setitem_nil.
      * assert (0 < __len__ self) as Hpos by (unfold __len__ in *; lia).
        assert (0 <= _offset self < __len__ self) as Ho
          by (destruct Hoff as [->|[_ ?]]; lia).
        eapply (append_overwrites _ _ m); [done|lia|lia|lia|].
        unfold append, overwrite, list_setitem. rewrite Hm, Hfull.
        assert (py_index (length (_data self)) (_offset self)
                = Some (Z.to_nat (_offset self))) as ->
          by (apply py_index_Some; unfold __len__ in Ho; lia).
        unfold py_mod. simpl.
        by destruct (Z.eqb_spec m 0); [lia|].
    + assert ((__len__ self >=? m) = false) as Hroom
        by (rewrite Z.geb_leb; apply Z.leb_gt; lia).
      eapply append_grows; [right; eauto| |].
      * destruct Hoff as [?|[[= ->] _]]; [done|lia].
      * unfold append. by rewrite Hm, Hroom.
  - eapply append_grows; [by left| |].
    + destruct Hoff as [?|[? _]]; [done|discriminate].
    + unfold append. by rewrite Hm.
Qed.

(** No call changes the capacity. *)
Lemma append_max_length item self :
  _max_length (append item self).2 = _max_length self.
Proof.
  unfold append, overwrite.
  destruct (_max_length self) as [m|] eqn:Hm; simpl; [|done].
  destruct (__len__ self >=? m); simpl; [|done].
  destruct (list_setitem _ _ _); simpl; [|done].
  destruct (py_mod _ _); simpl; done.
Qed.

Lemma append_wf item self : wf self -> wf (append item self).2.
Proof.
  intros Hwf.
  destruct (append_cases item self Hwf)
    as [Hcap Ho ->|m Hcap Hm Hlen Ho ->|m Hcap Hm Hdata Ho ->]; simpl;
    [|  |done].
  - destruct Hwf as [_ Hle]. split; simpl; [by left|].
    intros m Hm. unfold __len__. simpl. rewrite length_app. simpl.
    destruct Hcap as [Hcap|(m' & Hcap & Hlt)]; [congruence|].
    unfold __len__ in Hlt. assert (m' = m) by congruence. lia.
  - pose proof (Z.mod_pos_bound (_offset self + 1) m Hm).
    unfold wf, __len__ in *. simpl. rewrite length_insert, Hlen.
    split; [right; split; [done|lia]|].
    intros m' [= <-]. lia.
Qed.

(** [append] on the logical view: the item becomes the newest, and the
    oldest is dropped when the buffer was full. *)
Lemma append_represents cap given item self :
  represents cap given self ->
  represents cap (given ++ [item]) (append item self).2.
Proof.
  intros (Hcap & Hwf & Hview).
  split; [by rewrite append_max_length|]. split; [by apply append_wf|].
  pose proof (f_equal length Hview) as Hsize.
  rewrite contents_length, retained_length in Hsize.
  destruct (append_cases item self Hwf)
    as [Hgrow Ho Happ|m Hm Hpos Hlen Ho Happ|m Hm Hpos Hdata Ho Happ];
    rewrite Happ; simpl.
  - unfold contents in *. simpl. rewrite Ho in *. simpl in *.
    rewrite rotate_0 in *. rewrite Hview.
    destruct Hgrow as [Hnone|(m & Hm & Hlt)].
    + by rewrite <- Hcap, Hnone.
    + rewrite <- Hcap, Hm in *. simpl in *. unfold __len__ in Hlt.
      symmetry. apply keep_last_snoc_grow. lia.
  - rewrite <- Hcap, Hm in *. simpl in *. unfold __len__ in Hlen.
    rewrite keep_last_snoc_full by lia. rewrite <- Hview.
    unfold contents. simpl.
    rewrite <- Hlen, cursor_step by lia.
    rewrite <- (length_insert (_data self) (Z.to_nat (_offset self)) item)
      at 1.
    rewrite rotate_mod. apply rotate_overwrite. lia.
  - rewrite <- Hcap, Hm, retained_nonpositive by done.
    unfold contents. rewrite Ho, Hdata. apply rotate_0.
Qed.
End Methods.

(** ** Sequences of calls *)

Section Sequences.
Context {A : Type}.
Implicit Types (self : ReplayBuffer A) (item x : A) (items given : list A).
Implicit Types (cap : option Z) (m index : Z).

Lemma extend_loop_appends m items self :
  _max_length self = Some m -> extend_loop m items self = appends items self.
Proof.
  revert self. induction items as [|item items IH]; intros self Hm; [done|].
  simpl.
  assert (append item self =
          if __len__ self >=? m then overwrite m item self
          else (Ok (), data_append item self)) as <-
    by (unfold append; by rewrite Hm).
  pose proof (append_max_length item self) as Hmax.
  destruct (append item self) as [[[]|e] self']; [|done].
  apply IH. simpl in Hmax. congruence.
Qed.

Lemma appends_unbounded items self :
  _max_length self = None ->
  appends items self =
    (Ok (), {| _max_length := _max_length self;
               _data := _data self ++ items;
               _offset := _offset self |}).
Proof.
  revert self. induction items as [|item items IH]; intros self Hm; simpl.
  - rewrite app_nil_r. by destruct self.
  - unfold append. rewrite Hm. rewrite IH by done. simpl.
    by rewrite Hm, <- app_assoc.
Qed.

Lemma extend_appends items self : extend items self = appends items self.
Proof.
  unfold extend. destruct (_max_length self) as [m|] eqn:Hm.
  - by apply extend_loop_appends.
  - rewrite appends_unbounded by done. by rewrite Hm.
Qed.

Lemma appends_represents cap given items self :
  represents cap given self ->
  represents cap (given ++ items) (appends items self).2.
Proof.
  revert given self.
  induction items as [|item items IH]; intros given self Hrep; simpl.
  - by rewrite app_nil_r.
  - pose proof (append_represents cap given item self Hrep) as Hstep.
    destruct Hrep as (Hcap & Hwf & Hview).
    destruct (append_cases item self Hwf)
      as [_ _ Happ|m _ _ _ _ Happ|m Hm Hpos Hdata Ho Happ];
      rewrite Happ in *; simpl in *.
    1,2: rewrite (cons_middle item), app_assoc; by apply IH.
    split; [done|]. split; [done|].
    rewrite <- Hcap, Hm, retained_nonpositive by done.
    unfold contents. rewrite Ho, Hdata. apply rotate_0.
Qed.

Lemma appends_all_represents cap given items self :
  represents cap given self ->
  represents cap (given ++ items) (appends_all items self).
Proof.
  revert given self. unfold appends_all.
  induction items as [|item items IH]; intros given self Hrep; simpl.
  - by rewrite app_nil_r.
  - rewrite (cons_middle item), app_assoc.
    apply IH. by apply append_represents.
Qed.

Lemma init_represents cap : represents cap [] (@__init__ A cap).
Proof.
  split; [done|]. split.
  - split; [by left|]. simpl. intros m _. unfold __len__. simpl. lia.
  - unfold contents. simpl. rewrite rotate_0. by destruct cap.
Qed.

(** Every state a buffer can be in is well formed and shows what a buffer
    of its capacity retains of the items it was given. *)
Lemma reaches_represents cap given self :
  reaches cap given self -> represents cap given self.
Proof.
  induction 1 as [|given self item _ IH|given self items _ IH].
  - apply init_represents.
  - by apply append_represents.
  - rewrite extend_appends. by apply appends_represents.
Qed.

Lemma reaches_appends cap items :
  reaches cap items (appends items (__init__ cap)).2.
Proof.
  rewrite <- extend_appends.
  apply (reaches_extend cap [] (__init__ cap) items), reaches_init.
Qed.

(** On a buffer with room for at least one item, no call of [append]
    raises. *)
Lemma append_returns cap given item self :
  represents cap given self ->
  (forall m, cap = Some m -> 0 < m) ->
  (append item self).1 = Ok ().
Proof.
  intros (Hcap & Hwf & _) Hpos.
  destruct (append_cases item self Hwf)
    as [_ _ ->|m _ _ _ _ ->|m Hm Hle _ _ _]; [done|done|].
  specialize (Hpos m). rewrite <- Hcap in Hpos. specialize (Hpos Hm). lia.
Qed.

Lemma appends_returns cap given items self :
  represents cap given self ->
  (forall m, cap = Some m -> 0 < m) ->
  (appends items self).1 = Ok ().
Proof.
  revert given self.
  induction items as [|item items IH]; intros given self Hrep Hpos; [done|].
  simpl.
  pose proof (append_returns cap given item self Hrep Hpos) as Hok.
  pose proof (append_represents cap given item self Hrep) as Hstep.
  destruct (append item self) as [[[]|e] self']; simpl in *; [|done].
  by eapply IH.
Qed.
End Sequences.

(** ** Reading *)

Section Reading.
Context {A : Type}.
Implicit Types (self : ReplayBuffer A) (item x : A) (items given : list A).
Implicit Types (cap : option Z) (m index i j : Z).

Lemma getitem_outside self index :
  ~ (- __len__ self <= index < __len__ self) ->
  __getitem__ index self = Raise AssertionError.
Proof.
  intros Hout. unfold __getitem__.
  destruct (Z.leb_spec (- __len__ self) index),
    (Z.ltb_spec index (__len__ self)); simpl; try done. lia.
Qed.

(** Inside the window [__getitem__] reads the slot
    [(offset + index) % len]. *)
Lemma getitem_inside self index :
  - __len__ self <= index < __len__ self ->
  exists x, __getitem__ index self = Ok x /\
    _data self !! Z.to_nat ((_offset self + index) `mod` __len__ self)
      = Some x.
Proof.
  intros Hin. unfold __getitem__, py_mod.
  destruct (Z.leb_spec (- __len__ self) index),
    (Z.ltb_spec index (__len__ self)); simpl; try lia.
  destruct (Z.eqb_spec (__len__ self) 0); [lia|].
  pose proof (Z.mod_pos_bound (_offset self + index) (__len__ self)) as Hp.
  set (p := (_offset self + index) `mod` __len__ self) in *.
  destruct (list_getitem_nat (_data self) (Z.to_nat p)) as (x & Hx & Hl).
  { unfold __len__ in *. lia. }
  rewrite Z2Nat.id in Hx by lia. eauto.
Qed.

(** On a well-formed buffer that slot is the position [index] of the
    logical view, a negative [index] counting from its end. *)
Lemma getitem_contents self index :
  wf self ->
  - __len__ self <= index < __len__ self ->
  exists x, __getitem__ index self = Ok x /\
    contents self !! Z.to_nat (index `mod` __len__ self) = Some x.
Proof.
  intros [Hoff _] Hin.
  destruct (getitem_inside self index Hin) as (x & Hget & Hslot).
  exists x. split; [done|].
  assert (0 <= _offset self) as Ho by (destruct Hoff as [->|[_ ?]]; lia).
  pose proof (Z.mod_pos_bound index (__len__ self)) as Hj.
  unfold contents, __len__ in *.
  rewrite lookup_rotate_r by lia.
  rewrite <- Hslot. f_equal. unfold rotate_nat_add.
  rewrite !Z2Nat.id by lia. by rewrite Zplus_mod_idemp_r.
Qed.

(** The physical slot [i] is the logical index [(i - offset) % len]. *)
Lemma slot_getitem self i x :
  _data self !! Z.to_nat i = Some x -> 0 <= i ->
  0 <= (i - _offset self) `mod` __len__ self < __len__ self /\
  __getitem__ ((i - _offset self) `mod` __len__ self) self = Ok x.
Proof.
  intros Hx Hi. pose proof (lookup_lt_Some _ _ _ Hx) as Hlt.
  assert (0 <= i < __len__ self) as Hin by (unfold __len__; lia).
  pose proof (Z.mod_pos_bound (i - _offset self) (__len__ self)) as Hj.
  split; [lia|].
  destruct (getitem_inside self ((i - _offset self) `mod` __len__ self))
    as (y & Hget & Hslot); [lia|].
  rewrite Hget. f_equal.
  rewrite Zplus_mod_idemp_r in Hslot.
  replace (_offset self + (i - _offset self)) with i in Hslot by lia.
  rewrite Z.mod_small in Hslot by lia. congruence.
Qed.

Lemma slot_index_inj self i i' :
  0 <= i < __len__ self -> 0 <= i' < __len__ self ->
  (i - _offset self) `mod` __len__ self
    = (i' - _offset self) `mod` __len__ self ->
  i = i'.
Proof.
  intros Hi Hi' Heq.
  assert (forall k, 0 <= k < __len__ self ->
    ((k - _offset self) `mod` __len__ self + _offset self) `mod` __len__ self
      = k) as Hback.
  { intros k Hk. rewrite Zplus_mod_idemp_l.
    replace (k - _offset self + _offset self) with k by lia.
    by apply Z.mod_small. }
  rewrite <- (Hback i Hi), <- (Hback i' Hi'). by rewrite Heq.
Qed.

(** What a reachable buffer shows at a logical index is the item of that
    rank among those it retains of what it was given. *)
Lemma reaches_getitem cap given self index :
  reaches cap given self ->
  - __len__ self <= index < __len__ self ->
  exists x, __getitem__ index self = Ok x /\
    retained cap given !! Z.to_nat (index `mod` __len__ self) = Some x.
Proof.
  intros (_ & Hwf & <-)%reaches_represents Hin.
  by apply getitem_contents.
Qed.

Lemma reaches_len cap given self :
  reaches cap given self ->
  __len__ self = Z.of_nat (length (retained cap given)).
Proof.
  intros (_ & _ & <-)%reaches_represents.
  by rewrite contents_length.
Qed.
End Reading.

(** * The properties of the buffer *)

Lemma represents_len {A} cap (given : list A) self :
  represents cap given self ->
  (forall C, cap = Some C -> 0 <= C) ->
  __len__ self = bound cap (Z.of_nat (length given)).
Proof.
  intros (_ & _ & Hview) Hcap. unfold __len__.
  rewrite <- contents_length, Hview, retained_length.
  destruct cap as [C|]; simpl; [|done].
  specialize (Hcap C eq_refl). lia.
Qed.

(** C1 (capacity bound): a buffer created with a capacity [C >= 0] that
    was given [N] items holds [min N C] of them, one created without a
    capacity holds all [N].  This is so after [N] calls of [append]
    (which all return when [C >= 1]) and after any sequence of [append]
    and [extend] calls that were given [N] items in total, so that the
    length of a bounded buffer is always between 0 and [C]. *)
Theorem capacity_bound {A} (cap : option Z) (items : list A) :
  (forall C, cap = Some C -> 0 <= C) ->
  __len__ (appends_all items (__init__ cap))
    = bound cap (Z.of_nat (length items)) /\
  ((forall C, cap = Some C -> 0 < C) ->
   exists self : ReplayBuffer A,
     appends items (__init__ cap) = (Ok (), self) /\
     __len__ self = bound cap (Z.of_nat (length items))) /\
  (forall (given : list A) self, reaches cap given self ->
     __len__ self = bound cap (Z.of_nat (length given)) /\
     0 <= __len__ self /\
     forall C, cap = Some C -> __len__ self <= C).
Proof.
  intros Hcap. split; [|split].
  - apply represents_len; [|done].
    apply (appends_all_represents cap [] items), init_represents.
  - intros Hpos.
    pose proof (appends_returns cap [] items _ (init_represents cap) Hpos)
      as Hok.
    pose proof (appends_represents cap [] items _ (init_represents cap))
      as Hrep.
    destruct (appends items (__init__ cap)) as [r self]. simpl in *.
    subst r. exists self. split; [done|]. by apply represents_len.
  - intros given self Hreach%reaches_represents.
    rewrite (represents_len cap given self Hreach Hcap).
    split; [done|]. split.
    + destruct cap as [C|]; simpl; [|lia]. specialize (Hcap C eq_refl). lia.
    + intros C ->. simpl. lia.
Qed.

(** The bound at work: capacity 3, five items. *)
Lemma capacity_bound_witness :
  __len__ (appends_all [1; 2; 3; 4; 5] (__init__ (Some 3))) = 3 /\
  (exists self, appends [1; 2; 3; 4; 5] (__init__ (Some 3)) = (Ok (), self) /\
     __len__ self = 3).
Proof.
  destruct (capacity_bound (Some 3) [1; 2; 3; 4; 5]) as (H1 & H2 & _).
  - intros C [= <-]. lia.
  - split; [exact H1|]. apply H2. intros C [= <-]. lia.
Defined.

(** The item of rank [i] among the retained ones, as an item given. *)
Lemma retained_lookup {A} cap (given : list A) (i : nat) :
  (i < length (retained cap given))%nat ->
  retained cap given !! i
    = given !! (length given - length (retained cap given) + i)%nat.
Proof.
  intros Hi. rewrite retained_length in *. destruct cap as [m|]; simpl.
  - by apply keep_last_lookup.
  - f_equal. lia.
Qed.

(** What [__getitem__] returns on a reachable buffer, as an item given:
    the index counts from the oldest retained item, or from behind the
    newest one when it is negative. *)
Lemma reaches_getitem_given {A} cap (given : list A) self index :
  reaches cap given self ->
  - __len__ self <= index < __len__ self ->
  exists x, __getitem__ index self = Ok x /\
    given !! Z.to_nat (Z.of_nat (length given) - __len__ self
                       + index `mod` __len__ self) = Some x.
Proof.
  intros Hreach Hin.
  destruct (reaches_getitem cap given self index Hreach Hin)
    as (x & Hget & Hx).
  exists x. split; [done|].
  pose proof (reaches_len cap given self Hreach) as Hlen.
  pose proof (Z.mod_pos_bound index (__len__ self)) as Hj.
  rewrite retained_lookup in Hx by lia. rewrite <- Hx. f_equal.
  assert (length (retained cap given) <= length given)%nat
    by (rewrite retained_length; destruct cap; lia).
  lia.
Qed.

(** C3 (range check of positional access): on every reachable buffer
    [__getitem__] raises, by its range assertion, exactly for the indices
    outside [-len, len); for an index inside it returns the item of that
    rank among the retained ones and never a clamped or wrapped one.  With
    capacity 3 and the items a, b, c, d, e appended, the length is 3, the
    indices 0, 1, 2 and -1 give c, d, e and e, and 3 and -4 raise. *)
Theorem getitem_range {A : Type} :
  (forall cap (given : list A) self index,
     reaches cap given self ->
     (__getitem__ index self = Raise AssertionError <->
      ~ (- __len__ self <= index < __len__ self)) /\
     (- __len__ self <= index < __len__ self ->
      exists x, __getitem__ index self = Ok x /\
        retained cap given !! Z.to_nat (index `mod` __len__ self)
          = Some x)) /\
  (forall a b c d e : A,
     exists self, appends [a; b; c; d; e] (__init__ (Some 3)) = (Ok (), self) /\
       __len__ self = 3 /\
       __getitem__ 0 self = Ok c /\
       __getitem__ 1 self = Ok d /\
       __getitem__ 2 self = Ok e /\
       __getitem__ (-1) self = Ok e /\
       __getitem__ 3 self = Raise AssertionError /\
       __getitem__ (-4) self = Raise AssertionError).
Proof.
  split.
  - intros cap given self index Hreach. split; [split|].
    + intros Hraise Hin.
      destruct (reaches_getitem cap given self index Hreach Hin)
        as (x & Hget & _).
      congruence.
    + apply getitem_outside.
    + by apply reaches_getitem.
  - intros a b c d e. eexists. split; [reflexivity|].
    repeat split; reflexivity.
Qed.

(** The range check on the buffer of capacity 3 given 1 to 5, at the
    indices -1 and 3. *)
Lemma getitem_range_witness :
  reaches (Some 3) [1; 2; 3; 4; 5]
    (appends [1; 2; 3; 4; 5] (__init__ (Some 3))).2 /\
  __getitem__ (-1) (appends [1; 2; 3; 4; 5] (__init__ (Some 3))).2 = Ok 5 /\
  __getitem__ 3 (appends [1; 2; 3; 4; 5] (__init__ (Some 3))).2
    = Raise AssertionError.
Proof.
  pose proof (reaches_appends (Some 3) [1; 2; 3; 4; 5]) as Hreach.
  split; [exact Hreach|].
  destruct (@getitem_range Z) as [Hrange _]. split.
  - destruct (Hrange _ _ _ (-1) Hreach) as [_ Hin].
    destruct Hin as (x & Hget & Hx);
      [vm_compute; split; [discriminate|reflexivity]|].
    rewrite Hget. vm_compute in Hx. by injection Hx as ->.
  - destruct (Hrange _ _ _ 3 Hreach) as [[_ Hout] _].
    apply Hout. vm_compute. intros [_ Hlt]. discriminate Hlt.
Defined.

(** C7 (indexing symmetry): on every reachable buffer, full or not, the index
    [-k] reads what the index [len - k] reads, which is the [k]-th newest
    item given, and the index 0 reads the oldest item still retained. *)
Theorem negative_index {A} cap (given : list A) self k :
  reaches cap given self ->
  1 <= k <= __len__ self ->
  (exists x, __getitem__ (- k) self = Ok x /\
     __getitem__ (__len__ self - k) self = Ok x /\
     given !! (length given - Z.to_nat k)%nat = Some x) /\
  (exists oldest, __getitem__ 0 self = Ok oldest /\
     retained cap given !! 0%nat = Some oldest /\
     given !! (length given - Z.to_nat (__len__ self))%nat = Some oldest).
Proof.
  intros Hreach Hk.
  pose proof (reaches_len cap given self Hreach) as Hlen.
  assert (length (retained cap given) <= length given)%nat as Hle
    by (rewrite retained_length; destruct cap; lia).
  assert ((- k) `mod` __len__ self = __len__ self - k) as Hneg.
  { replace (- k) with (__len__ self - k + (-1) * __len__ self) by lia.
    rewrite Z.mod_add by lia. apply Z.mod_small. lia. }
  split.
  - destruct (reaches_getitem_given cap given self (- k) Hreach)
      as (x & Hget & Hx); [lia|].
    destruct (reaches_getitem_given cap given self (__len__ self - k) Hreach)
      as (y & Hget' & Hy); [lia|].
    rewrite Hneg in Hx. rewrite Z.mod_small in Hy by lia.
    assert (x = y) as <- by congruence.
    exists x. split; [done|]. split; [done|]. rewrite <- Hx. f_equal. lia.
  - destruct (reaches_getitem cap given self 0 Hreach)
      as (x & Hget & Hx); [lia|].
    destruct (reaches_getitem_given cap given self 0 Hreach)
      as (y & Hget' & Hy); [lia|].
    rewrite Z.mod_0_l in Hx, Hy by lia.
    assert (x = y) as <- by congruence.
    exists x. split; [done|]. split; [done|]. rewrite <- Hy. f_equal. lia.
Qed.

(** The symmetry on the buffer of capacity 3 given 1 to 5, for [k = 2]. *)
Lemma negative_index_witness :
  let self := (appends [1; 2; 3; 4; 5] (__init__ (Some 3))).2 in
  reaches (Some 3) [1; 2; 3; 4; 5] self /\ 1 <= 2 <= __len__ self /\
  (exists x, __getitem__ (- 2) self = Ok x /\
     __getitem__ (__len__ self - 2) self = Ok x /\
     [1; 2; 3; 4; 5] !! (5 - Z.to_nat 2)%nat = Some x) /\
  (exists oldest, __getitem__ 0 self = Ok oldest /\
     retained (Some 3) [1; 2; 3; 4; 5] !! 0%nat = Some oldest /\
     [1; 2; 3; 4; 5] !! (5 - Z.to_nat (__len__ self))%nat = Some oldest).
Proof.
  intros self.
  pose proof (reaches_appends (Some 3) [1; 2; 3; 4; 5]) as Hreach.
  assert (1 <= 2 <= __len__ self) as Hk by (vm_compute; split; discriminate).
  split; [exact Hreach|]. split; [exact Hk|].
  exact (negative_index (Some 3) [1; 2; 3; 4; 5] self 2 Hreach Hk).
Defined.

(** Inside the window a negative index reads what its non-negative
    counterpart reads. *)
Lemma getitem_mod {A} (self : ReplayBuffer A) index :
  - __len__ self <= index < __len__ self ->
  __getitem__ index self = __getitem__ (index `mod` __len__ self) self.
Proof.
  intros Hin.
  pose proof (Z.mod_pos_bound index (__len__ self)) as Hj.
  destruct (getitem_inside self index Hin) as (x & -> & Hx).
  destruct (getitem_inside self (index `mod` __len__ self))
    as (y & -> & Hy); [lia|].
  rewrite Zplus_mod_idemp_r in Hy. congruence.
Qed.

(** A call of [append] on a reachable buffer with room for at least one
    item returns and leads to a reachable buffer. *)
Lemma reaches_append_returns {A} C (given : list A) self item :
  0 < C -> reaches (Some C) given self ->
  exists self', append item self = (Ok (), self') /\
    reaches (Some C) (given ++ [item]) self'.
Proof.
  intros HC Hreach.
  pose proof (reaches_append _ _ _ item Hreach) as Hnext.
  assert ((append item self).1 = Ok ()) as Hok.
  { eapply append_returns; [by apply reaches_represents|].
    intros ? [= <-]. done. }
  destruct (append item self) as [r self']. simpl in *. subst r. eauto.
Qed.

Lemma reaches_bounded_len {A} C (given : list A) self :
  0 <= C -> reaches (Some C) given self ->
  __len__ self = Z.min (Z.of_nat (length given)) C.
Proof.
  intros HC Hreach%reaches_represents.
  apply (represents_len _ _ _ Hreach). intros ? [= <-]. done.
Qed.

(** C2 (order under wraparound, FIFO eviction): after [C + 1] items were
    appended to a new buffer of capacity [C >= 1], the index [i] reads the
    item [i + 1] of them, for every [i] below [C].  On a full reachable
    buffer one more [append] returns, keeps the length, makes the appended
    item the last one and moves every other item one index down; the item
    that was at index 0 is read at no index any more, unless the buffer
    held it twice or it was appended again. *)
Theorem fifo_eviction {A : Type} :
  (forall C (items : list A),
     1 <= C -> Z.of_nat (length items) = C + 1 ->
     exists self, appends items (__init__ (Some C)) = (Ok (), self) /\
       __len__ self = C /\
       forall i, 0 <= i < C ->
         exists x, items !! Z.to_nat (i + 1) = Some x /\
           __getitem__ i self = Ok x) /\
  (forall C (given : list A) self item,
     1 <= C -> reaches (Some C) given self -> __len__ self = C ->
     exists self', append item self = (Ok (), self') /\
       __len__ self' = __len__ self /\
       __getitem__ (__len__ self' - 1) self' = Ok item /\
       (forall i, 0 <= i < C - 1 ->
          __getitem__ i self' = __getitem__ (i + 1) self) /\
       (forall old, __getitem__ 0 self = Ok old ->
          (forall i, 1 <= i < C -> __getitem__ i self <> Ok old) ->
          item <> old ->
          forall i, __getitem__ i self' <> Ok old)).
Proof.
  split.
  - intros C items HC Hn.
    pose proof (reaches_appends (Some C) items) as Hreach.
    assert ((appends items (__init__ (Some C))).1 = Ok ()) as Hok.
    { eapply appends_returns; [apply init_represents|].
      intros ? [= <-]. lia. }
    destruct (appends items (__init__ (Some C))) as [r self].
    simpl in *. subst r. exists self. split; [done|].
    pose proof (reaches_bounded_len C items self ltac:(lia) Hreach) as Hlen.
    split; [lia|]. intros i Hi.
    destruct (reaches_getitem_given _ _ _ i Hreach) as (x & Hget & Hx);
      [lia|].
    exists x. split; [|done]. rewrite <- Hx. f_equal.
    rewrite Z.mod_small by lia. lia.
  - intros C given self item HC Hreach Hfull.
    destruct (reaches_append_returns C given self item ltac:(lia) Hreach)
      as (self' & Happ & Hreach').
    exists self'. split; [done|].
    pose proof (reaches_bounded_len C _ _ ltac:(lia) Hreach) as Hlen.
    pose proof (reaches_bounded_len C _ _ ltac:(lia) Hreach') as Hlen'.
    rewrite length_app in Hlen'. simpl in Hlen'.
    assert (__len__ self' = C) as Hfull' by lia.
    assert (forall i, 0 <= i < C - 1 ->
              __getitem__ i self' = __getitem__ (i + 1) self) as Hshift.
    { intros i Hi.
      destruct (reaches_getitem_given _ _ _ i Hreach') as (x & -> & Hx);
        [lia|].
      destruct (reaches_getitem_given _ _ _ (i + 1) Hreach)
        as (y & -> & Hy); [lia|].
      rewrite Hfull', Z.mod_small in Hx by lia.
      rewrite Hfull, Z.mod_small in Hy by lia.
      rewrite length_app, lookup_app_l in Hx by (simpl; lia).
      simpl in Hx.
      replace (Z.to_nat (Z.of_nat (length given) - C + (i + 1)))
        with (Z.to_nat (Z.of_nat (length given + 1) - C + i)) in Hy by lia.
      congruence. }
    assert (__getitem__ (C - 1) self' = Ok item) as Hlast.
    { destruct (reaches_getitem_given _ _ _ (C - 1) Hreach')
        as (x & -> & Hx); [lia|].
      rewrite Hfull', Z.mod_small in Hx by lia.
      rewrite length_app in Hx. simpl in Hx.
      replace (Z.to_nat (Z.of_nat (length given + 1) - C + (C - 1)))
        with (length given + 0)%nat in Hx by lia.
      rewrite lookup_app_r, Nat.add_0_r, Nat.sub_diag in Hx by lia.
      simpl in Hx. congruence. }
    split; [lia|]. split; [by rewrite Hfull'|]. split; [done|].
    intros old Hold Hunique Hitem i Hget.
    destruct (decide (- __len__ self' <= i < __len__ self')) as [Hin|Hout].
    + rewrite getitem_mod in Hget by done.
      pose proof (Z.mod_pos_bound i (__len__ self')) as Hj.
      rewrite Hfull' in *.
      destruct (decide (i `mod` C = C - 1)) as [Heq|Hne].
      * rewrite Heq in Hget. congruence.
      * rewrite Hshift in Hget by lia.
        by apply (Hunique (i `mod` C + 1)); [lia|].
    + by rewrite getitem_outside in Hget.
Qed.

(** The eviction at work: capacity 2, three and then four items. *)
Lemma fifo_eviction_witness :
  (exists self, appends [10; 20; 30] (__init__ (Some 2)) = (Ok (), self) /\
     __getitem__ 0 self = Ok 20 /\ __getitem__ 1 self = Ok 30) /\
  (exists self',
     append 40 (appends [10; 20; 30] (__init__ (Some 2))).2 = (Ok (), self') /\
     __getitem__ (__len__ self' - 1) self' = Ok 40 /\
     forall i, __getitem__ i self' <> Ok 20).
Proof.
  destruct (@fifo_eviction Z) as [Horder Hevict]. split.
  - destruct (Horder 2 [10; 20; 30]) as (self & Happ & _ & Hget);
      [lia|reflexivity|].
    exists self. split; [exact Happ|].
    destruct (Hget 0) as (x & Hx & ->); [lia|].
    destruct (Hget 1) as (y & Hy & ->); [lia|].
    vm_compute in Hx, Hy. injection Hx as <-. injection Hy as <-. done.
  - destruct (Hevict 2 [10; 20; 30]
                (appends [10; 20; 30] (__init__ (Some 2))).2 40)
      as (self' & Happ & _ & Hlast & _ & Hgone);
      [lia|apply reaches_appends|reflexivity|].
    exists self'. split; [exact Happ|]. split; [exact Hlast|].
    apply Hgone; [reflexivity| |discriminate].
    intros i Hi. assert (i = 1) as -> by lia. discriminate.
Defined.

(** What a call of [append] does to a full reachable buffer with room for
    at least one item. *)
Lemma append_full {A} C (given : list A) self item :
  0 < C -> reaches (Some C) given self -> __len__ self = C ->
  0 <= _offset self < C /\
  append item self =
    (Ok (), {| _max_length := Some C;
               _data := <[Z.to_nat (_offset self):=item]> (_data self);
               _offset := (_offset self + 1) `mod` C |}).
Proof.
  intros HC (Hcap & Hwf & _)%reaches_represents Hfull.
  destruct (append_cases item self Hwf)
    as [[Hnone|(m & Hm & Hlt)] _ _|m Hm _ _ Ho Happ|m Hm Hle _ _ _].
  - congruence.
  - assert (m = C) by congruence. lia.
  - assert (m = C) as -> by congruence. done.
  - assert (m = C) by congruence. lia.
Qed.

(** C8 (write cursor): on every reachable buffer of capacity [C >= 1] the
    cursor is in [0, C).  Once the buffer is full, the slot under the cursor
    holds the oldest retained item, the one the index 0 reads, and a call of
    [append] moves the cursor one slot on, modulo [C]; as long as the buffer
    is not full, the cursor is 0 and [append] leaves it there. *)
Theorem write_cursor {A} C (given : list A) self :
  0 < C -> reaches (Some C) given self ->
  0 <= _offset self < C /\
  (__len__ self = C ->
   exists oldest, list_getitem (_data self) (_offset self) = Ok oldest /\
     __getitem__ 0 self = Ok oldest /\
     given !! (length given - Z.to_nat C)%nat = Some oldest) /\
  (forall item, __len__ self = C ->
     _offset (append item self).2 = (_offset self + 1) `mod` C) /\
  (forall item, __len__ self < C ->
     _offset self = 0 /\ _offset (append item self).2 = 0).
Proof.
  intros HC Hreach.
  pose proof (reaches_represents _ _ _ Hreach) as (Hcap & Hwf & _).
  assert (0 <= _offset self < C) as Ho.
  { destruct Hwf as [[->|[Hfull ?]] _]; [lia|].
    assert (__len__ self = C) by congruence. lia. }
  split; [done|]. split; [|split].
  - intros Hfull.
    destruct (reaches_getitem_given _ _ _ 0 Hreach) as (x & Hget & Hx);
      [lia|].
    destruct (getitem_inside self 0) as (y & Hget' & Hslot); [lia|].
    assert (y = x) as -> by congruence.
    exists x. split; [|split; [done|]].
    + rewrite Z.add_0_r, Z.mod_small in Hslot by lia.
      apply list_getitem_lookup in Hslot.
      by rewrite Z2Nat.id in Hslot by lia.
    + rewrite <- Hx. f_equal. rewrite Z.mod_0_l by lia. lia.
  - intros item Hfull.
    destruct (append_full C given self item HC Hreach Hfull) as [_ ->].
    done.
  - intros item Hroom.
    destruct (append_cases item self Hwf)
      as [_ Hzero ->|m Hm _ Hfull _ _|m Hm Hle _ _ _].
    + done.
    + assert (m = C) by congruence. lia.
    + assert (m = C) by congruence. lia.
Qed.

(** The cursor of the buffer of capacity 3 given 1 to 5. *)
Lemma write_cursor_witness :
  let self := (appends [1; 2; 3; 4; 5] (__init__ (Some 3))).2 in
  0 < 3 /\ reaches (Some 3) [1; 2; 3; 4; 5] self /\
  0 <= _offset self < 3 /\
  (exists oldest, list_getitem (_data self) (_offset self) = Ok oldest /\
     __getitem__ 0 self = Ok oldest /\
     [1; 2; 3; 4; 5] !! (5 - Z.to_nat 3)%nat = Some oldest) /\
  _offset (append 6 self).2 = (_offset self + 1) `mod` 3.
Proof.
  intros self.
  pose proof (reaches_appends (Some 3) [1; 2; 3; 4; 5]) as Hreach.
  assert (0 < 3) as HC by reflexivity.
  destruct (write_cursor 3 [1; 2; 3; 4; 5] self HC Hreach)
    as (Ho & Hold & Hstep & _).
  split; [exact HC|]. split; [exact Hreach|]. split; [exact Ho|].
  split; [apply Hold; reflexivity|apply Hstep; reflexivity].
Defined.

(** C9 (frame of an overwriting append): on a full reachable buffer of
    capacity [C >= 1] a call of [append] returns, writes the item into the
    slot under the cursor and moves the cursor; the capacity, the length of
    the storage and every other slot are as before. *)
Theorem overwrite_frame {A} C (given : list A) self item :
  0 < C -> reaches (Some C) given self -> __len__ self = C ->
  exists self', append item self = (Ok (), self') /\
    _max_length self' = _max_length self /\
    length (_data self') = length (_data self) /\
    __len__ self' = C /\
    _data self' !! Z.to_nat (_offset self) = Some item /\
    (forall p, p <> Z.to_nat (_offset self) ->
       _data self' !! p = _data self !! p) /\
    _offset self' = (_offset self + 1) `mod` C.
Proof.
  intros HC Hreach Hfull.
  destruct (append_full C given self item HC Hreach Hfull) as [Ho ->].
  pose proof (reaches_represents _ _ _ Hreach) as (Hcap & _ & _).
  eexists. split; [done|]. unfold __len__ in *. simpl.
  rewrite length_insert.
  split; [done|]. split; [done|]. split; [done|]. split; [|split; [|done]].
  - apply list_lookup_insert_eq. lia.
  - intros p Hp. by apply list_lookup_insert_ne.
Qed.

(** The frame on the buffer of capacity 3 given 1 to 5, when 6 is
    appended. *)
Lemma overwrite_frame_witness :
  let self := (appends [1; 2; 3; 4; 5] (__init__ (Some 3))).2 in
  0 < 3 /\ reaches (Some 3) [1; 2; 3; 4; 5] self /\ __len__ self = 3 /\
  exists self', append 6 self = (Ok (), self') /\
    _max_length self' = _max_length self /\
    length (_data self') = length (_data self) /\
    __len__ self' = 3 /\
    _data self' !! Z.to_nat (_offset self) = Some 6 /\
    (forall p, p <> Z.to_nat (_offset self) ->
       _data self' !! p = _data self !! p) /\
    _offset self' = (_offset self + 1) `mod` 3.
Proof.
  intros self.
  pose proof (reaches_appends (Some 3) [1; 2; 3; 4; 5]) as Hreach.
  assert (0 < 3) as HC by reflexivity.
  assert (__len__ self = 3) as Hfull by reflexivity.
  split; [exact HC|]. split; [exact Hreach|]. split; [exact Hfull|].
  exact (overwrite_frame 3 [1; 2; 3; 4; 5] self 6 HC Hreach Hfull).
Defined.

(** C10 (capacity 0): creating a buffer of capacity 0 gives an empty
    buffer; its first [append] takes the overwriting branch and raises
    [IndexError] on the empty storage, and so does [extend] with at least
    one item, both leaving the buffer as it was; whatever calls are made,
    the buffer never holds an item. *)
Theorem zero_capacity {A : Type} :
  @__init__ A (Some 0)
    = {| _max_length := Some 0; _data := []; _offset := 0 |} /\
  (forall item : A,
     overwrite 0 item (__init__ (Some 0))
       = (Raise IndexError, __init__ (Some 0)) /\
     append item (__init__ (Some 0))
       = (Raise IndexError, __init__ (Some 0))) /\
  (forall (item : A) items,
     extend (item :: items) (__init__ (Some 0))
       = (Raise IndexError, __init__ (Some 0))) /\
  (forall (given : list A) self,
     reaches (Some 0) given self ->
     self = __init__ (Some 0) /\ __len__ self = 0).
Proof.
  split; [done|]. split; [done|]. split; [done|].
  intros given self Hreach.
  assert (self = __init__ (Some 0)) as ->; [|done].
  induction Hreach as [|given self item _ ->|given self items _ ->].
  - done.
  - done.
  - by destruct items.
Qed.

(** A buffer of capacity 0 after three attempts to fill it. *)
Lemma zero_capacity_witness :
  let self := (extend [2; 3] (append 1 (__init__ (Some 0))).2).2 in
  reaches (Some 0) ([] ++ [1] ++ [2; 3]) self /\
  self = __init__ (Some 0) /\ __len__ self = 0.
Proof.
  intros self.
  assert (reaches (Some 0) ([] ++ [1] ++ [2; 3]) self) as Hreach.
  { rewrite app_assoc.
    apply reaches_extend, reaches_append, reaches_init. }
  split; [exact Hreach|].
  destruct (@zero_capacity Z) as (_ & _ & _ & Hempty).
  exact (Hempty _ _ Hreach).
Defined.

(** ** Sampling *)

(** Whatever its seed, the generator without randomness keeps to what
    NumPy documents. *)
Lemma fixed_generator_contract seed : numpy_contract (fixed_generator seed).
Proof.
  split; simpl.
  - intros high size Hhigh Hsize.
    destruct (Z.ltb_spec 0 high), (Z.leb_spec 0 size); simpl; first [done|lia].
  - intros high size idxs.
    destruct (Z.ltb_spec 0 high), (Z.leb_spec 0 size); simpl; try done.
    intros [= <-]. rewrite length_replicate. split; [lia|].
    apply Forall_replicate. by apply Z.mod_pos_bound.
  - intros n size Hsize.
    destruct (Z.leb_spec 0 size), (Z.leb_spec size n); simpl; first [done|lia].
  - intros n size idxs.
    destruct (Z.leb_spec 0 size), (Z.leb_spec size n); simpl; try done.
    intros [= <-].
    rewrite length_reverse, length_fmap, length_seq.
    split; [lia|]. split.
    + rewrite reverse_Permutation.
      apply (NoDup_fmap_2 Z.of_nat), NoDup_seq.
    + rewrite Forall_reverse, Forall_fmap. apply Forall_seq.
      intros j Hj. simpl. lia.
  - intros n size Hsize.
    destruct (Z.leb_spec 0 size), (Z.leb_spec size n); simpl; first [done|lia].
Qed.

(** Reading the slots [idxs], all of them slots of the storage, returns
    as many items, each the one [__getitem__] reads at the logical index of
    its slot. *)
Lemma getitems_logical {A} (self : ReplayBuffer A) idxs :
  Forall (fun i => 0 <= i < __len__ self) idxs ->
  exists xs, list_getitems (_data self) idxs = Ok xs /\
    Forall2 (fun i x =>
      0 <= (i - _offset self) `mod` __len__ self < __len__ self /\
      __getitem__ ((i - _offset self) `mod` __len__ self) self = Ok x)
      idxs xs.
Proof.
  intros Hrange.
  destruct (list_getitems_in_range (_data self) idxs Hrange)
    as (xs & Hget & Hxs).
  exists xs. split; [done|].
  eapply Forall2_impl; [exact Hxs|]. simpl.
  intros i x [Hi Hx]. by apply slot_getitem.
Qed.

(** The indices [sample] got from the generator, and what it made of
    them. *)
Lemma sample_Ok {A} g (self : ReplayBuffer A) k replace xs :
  numpy_contract g ->
  sample k g replace self = Ok xs ->
  exists idxs,
    (if replace then randint g (__len__ self) k
     else choice g (__len__ self) k) = Ok idxs /\
    Z.of_nat (length idxs) = k /\
    Forall (fun i => 0 <= i < __len__ self) idxs /\
    (replace = false -> NoDup idxs) /\
    list_getitems (_data self) idxs = Ok xs.
Proof.
  intros Hg. unfold sample. destruct replace.
  - destruct (randint g (__len__ self) k) as [idxs|e] eqn:Hdraw; [|done].
    intros Hxs. exists idxs.
    destruct (randint_range g Hg _ _ _ Hdraw) as [Hsize Hrange].
    done.
  - destruct (choice g (__len__ self) k) as [idxs|e] eqn:Hdraw; [|done].
    intros Hxs. exists idxs.
    destruct (choice_range g Hg _ _ _ Hdraw) as (Hsize & Hdup & Hrange).
    done.
Qed.

Lemma sample_returns {A} g (self : ReplayBuffer A) k (replace : bool) :
  numpy_contract g ->
  0 <= k ->
  (if replace then 0 < __len__ self else k <= __len__ self) ->
  exists xs, sample k g replace self = Ok xs.
Proof.
  intros Hg Hk Hsize. unfold sample. destruct replace.
  - pose proof (randint_returns g Hg (__len__ self) k Hsize Hk) as Hok.
    destruct (randint g (__len__ self) k) as [idxs|e] eqn:Hdraw; [|done].
    destruct (randint_range g Hg _ _ _ Hdraw) as [_ Hrange].
    destruct (getitems_logical self idxs Hrange) as (xs & -> & _). eauto.
  - pose proof (choice_returns g Hg (__len__ self) k (conj Hk Hsize)) as Hok.
    destruct (choice g (__len__ self) k) as [idxs|e] eqn:Hdraw; [|done].
    destruct (choice_range g Hg _ _ _ Hdraw) as (_ & _ & Hrange).
    destruct (getitems_logical self idxs Hrange) as (xs & -> & _). eauto.
Qed.

(** Without replacement [sample] returns the items at as many different
    logical indices as it was asked for. *)
Lemma sample_distinct {A} g (self : ReplayBuffer A) k :
  numpy_contract g ->
  0 <= k <= __len__ self ->
  exists xs js, sample k g false self = Ok xs /\
    Z.of_nat (length xs) = k /\
    NoDup js /\
    Forall2 (fun j x => 0 <= j < __len__ self /\ __getitem__ j self = Ok x)
      js xs.
Proof.
  intros Hg [Hk Hsize].
  destruct (sample_returns g self k false Hg Hk Hsize) as [xs Hsample].
  destruct (sample_Ok g self k false xs Hg Hsample)
    as (idxs & _ & Hlen & Hrange & Hdup & Hget).
  destruct (getitems_logical self idxs Hrange) as (xs' & Hget' & Hxs).
  assert (xs' = xs) as -> by congruence.
  exists xs, ((fun i => (i - _offset self) `mod` __len__ self) <$> idxs).
  split; [done|]. split; [|split].
  - by rewrite <- (Forall2_length _ _ _ Hxs).
  - apply NoDup_fmap_2_strong; [|by apply Hdup].
    rewrite Forall_forall in Hrange.
    intros i i' Hi Hi'. apply slot_index_inj; by apply Hrange.
  - by apply Forall2_fmap_l.
Qed.

(** C5 (sampling without replacement): given a generator that keeps to what
    NumPy documents, [sample] without replacement returns, for a size [k]
    from 0 to the length of the buffer, [k] items read at pairwise different
    indices, and raises [ValueError] for a larger [k].  On a buffer holding
    X and then Y, the size 2 gives X and Y, in one order or the other. *)
Theorem sample_without_replacement {A} g (self : ReplayBuffer A) k :
  numpy_contract g ->
  (0 <= k <= __len__ self ->
   exists xs js, sample k g false self = Ok xs /\
     Z.of_nat (length xs) = k /\
     NoDup js /\
     Forall2 (fun j x => 0 <= j < __len__ self /\ __getitem__ j self = Ok x)
       js xs) /\
  (__len__ self < k -> sample k g false self = Raise ValueError) /\
  (forall X Y,
     __len__ self = 2 ->
     __getitem__ 0 self = Ok X -> __getitem__ 1 self = Ok Y ->
     k = 2 ->
     sample k g false self = Ok [X; Y] \/
     sample k g false self = Ok [Y; X]).
Proof.
  intros Hg. split; [by apply sample_distinct|]. split.
  - intros Hmany. unfold sample.
    rewrite (choice_too_many g Hg); [done|]. unfold __len__ in *. lia.
  - intros X Y Hlen HX HY ->.
    destruct (sample_distinct g self 2 Hg) as (xs & js & -> & Hsize & Hdup & Hxs);
      [lia|].
    pose proof (Forall2_length _ _ _ Hxs) as Hjs.
    destruct xs as [|x1 [|x2 [|]]]; simpl in Hsize; try lia.
    destruct js as [|j1 [|j2 [|]]]; simpl in Hjs; try lia.
    apply Forall2_cons_1 in Hxs as [[Hj1 Hx1] Hxs].
    apply Forall2_cons_1 in Hxs as [[Hj2 Hx2] _].
    apply NoDup_cons in Hdup as [Hne _].
    rewrite list_elem_of_singleton in Hne.
    assert ((j1 = 0 /\ j2 = 1) \/ (j1 = 1 /\ j2 = 0)) as [[-> ->]|[-> ->]]
      by lia.
    + left. congruence.
    + right. congruence.
Qed.

(** Both outcomes on the buffer of capacity 2 given 7, 8 and 9, which
    holds 8 and then 9. *)
Lemma sample_without_replacement_witness :
  let self := (appends [7; 8; 9] (__init__ (Some 2))).2 in
  numpy_contract (fixed_generator 0) /\
  sample 3 (fixed_generator 0) false self = Raise ValueError /\
  (sample 2 (fixed_generator 0) false self = Ok [8; 9] \/
   sample 2 (fixed_generator 0) false self = Ok [9; 8]).
Proof.
  intros self.
  pose proof (fixed_generator_contract 0) as Hg.
  split; [exact Hg|]. split.
  - destruct (sample_without_replacement (fixed_generator 0) self 3 Hg)
      as (_ & Hmany & _).
    apply Hmany. reflexivity.
  - destruct (sample_without_replacement (fixed_generator 0) self 2 Hg)
      as (_ & _ & Hboth).
    apply Hboth; reflexivity.
Defined.

(** C6 (sampling from the contents): given a generator that keeps to what
    NumPy documents and a reachable buffer that is not empty, whatever
    [sample] returns, with or without replacement, has as many items as
    asked for, each of them read by [__getitem__] at an index in
    [0, len) and one of the items the buffer retains; and [sample] does
    return for every size [k >= 0], up to the length of the buffer when
    without replacement. *)
Theorem sample_from_contents {A} g cap (given : list A) self k
    (replace : bool) :
  numpy_contract g -> reaches cap given self -> 0 < __len__ self ->
  (forall xs, sample k g replace self = Ok xs ->
     Z.of_nat (length xs) = k /\
     Forall (fun x => exists j, 0 <= j < __len__ self /\
                        __getitem__ j self = Ok x /\
                        retained cap given !! Z.to_nat j = Some x) xs) /\
  (0 <= k -> (replace = true \/ k <= __len__ self) ->
   exists xs, sample k g replace self = Ok xs).
Proof.
  intros Hg Hreach Hlen. split.
  - intros xs Hsample.
    destruct (sample_Ok g self k replace xs Hg Hsample)
      as (idxs & _ & Hsize & Hrange & _ & Hget).
    destruct (getitems_logical self idxs Hrange) as (xs' & Hget' & Hxs).
    assert (xs' = xs) as -> by congruence.
    split; [by rewrite <- (Forall2_length _ _ _ Hxs)|].
    eapply Forall2_Forall_r; [exact Hxs|].
    apply Forall_forall. intros i _ x [Hj Hx].
    exists ((i - _offset self) `mod` __len__ self).
    split; [done|]. split; [done|].
    destruct (reaches_getitem cap given self
                ((i - _offset self) `mod` __len__ self) Hreach)
      as (y & Hy & Hret); [lia|].
    rewrite Z.mod_mod in Hret by lia. congruence.
  - intros Hk Hmode. apply sample_returns; [done|done|].
    destruct replace; [done|]. by destruct Hmode.
Qed.

(** Sampling with replacement from the buffer of capacity 2 given 7, 8
    and 9. *)
Lemma sample_from_contents_witness :
  let self := (appends [7; 8; 9] (__init__ (Some 2))).2 in
  numpy_contract (fixed_generator 1) /\
  reaches (Some 2) [7; 8; 9] self /\ 0 < __len__ self /\
  (forall xs, sample 3 (fixed_generator 1) true self = Ok xs ->
     Z.of_nat (length xs) = 3 /\
     Forall (fun x => exists j, 0 <= j < __len__ self /\
                        __getitem__ j self = Ok x /\
                        retained (Some 2) [7; 8; 9] !! Z.to_nat j = Some x)
       xs) /\
  (exists xs, sample 3 (fixed_generator 1) true self = Ok xs).
Proof.
  intros self.
  pose proof (fixed_generator_contract 1) as Hg.
  pose proof (reaches_appends (Some 2) [7; 8; 9]) as Hreach.
  assert (0 < __len__ self) as Hlen by reflexivity.
  destruct (sample_from_contents (fixed_generator 1) (Some 2) [7; 8; 9]
              self 3 true Hg Hreach Hlen) as [Hitems Hreturns].
  split; [exact Hg|]. split; [exact Hreach|]. split; [exact Hlen|].
  split; [exact Hitems|]. apply Hreturns; [discriminate|by left].
Defined.

(** ** Extending *)

(** C4 (extend is repeated append): on every buffer, [extend] does what
    calling [append] on each item in turn does, with the same outcome and
    the same buffer afterwards; with no item nothing changes; and on a
    reachable buffer of capacity [C >= 1], at least [C] items leave exactly
    the last [C] of them in the buffer, in the order given. *)
Theorem extend_is_appends {A : Type} :
  (forall (items : list A) self, extend items self = appends items self) /\
  (forall self : ReplayBuffer A, extend [] self = (Ok (), self)) /\
  (forall C (given items : list A) self,
     reaches (Some C) given self ->
     0 < C <= Z.of_nat (length items) ->
     exists self', extend items self = (Ok (), self') /\
       __len__ self' = C /\
       forall i, 0 <= i < C ->
         exists x, __getitem__ i self' = Ok x /\
           items !! Z.to_nat (Z.of_nat (length items) - C + i) = Some x).
Proof.
  split; [apply extend_appends|].
  split; [intros self; by rewrite extend_appends|].
  intros C given items self Hreach [HC Hmany].
  pose proof (reaches_extend _ _ _ items Hreach) as Hreach'.
  assert ((extend items self).1 = Ok ()) as Hok.
  { rewrite extend_appends.
    eapply appends_returns; [by apply reaches_represents|].
    intros ? [= <-]. done. }
  destruct (extend items self) as [r self']. simpl in *. subst r.
  exists self'. split; [done|].
  pose proof (reaches_bounded_len C _ _ ltac:(lia) Hreach') as Hlen.
  rewrite length_app in Hlen.
  assert (__len__ self' = C) as Hfull by lia.
  split; [done|]. intros i Hi.
  destruct (reaches_getitem_given _ _ _ i Hreach') as (x & Hget & Hx);
    [lia|].
  exists x. split; [done|].
  rewrite Hfull, Z.mod_small, length_app in Hx by lia.
  rewrite lookup_app_r in Hx by lia. rewrite <- Hx. f_equal. lia.
Qed.

(** Seven items for a buffer of capacity 3 that already holds two. *)
Lemma extend_is_appends_witness :
  let self := (appends [1; 2] (__init__ (Some 3))).2 in
  extend [3; 4; 5; 6; 7; 8; 9] self = appends [3; 4; 5; 6; 7; 8; 9] self /\
  extend [] self = (Ok (), self) /\
  exists self', extend [3; 4; 5; 6; 7; 8; 9] self = (Ok (), self') /\
    __len__ self' = 3 /\
    __getitem__ 0 self' = Ok 7 /\ __getitem__ 2 self' = Ok 9.
Proof.
  intros self.
  destruct (@extend_is_appends Z) as (Hsame & Hnone & Hlast).
  split; [apply Hsame|]. split; [apply Hnone|].
  destruct (Hlast 3 [1; 2] [3; 4; 5; 6; 7; 8; 9] self)
    as (self' & Hext & Hlen & Hget).
  - apply reaches_appends.
  - split; [reflexivity|discriminate].
  - exists self'. split; [exact Hext|]. split; [exact Hlen|].
    destruct (Hget 0) as (x & -> & Hx); [lia|].
    destruct (Hget 2) as (y & -> & Hy); [lia|].
    vm_compute in Hx, Hy. injection Hx as <-. injection Hy as <-. done.
Defined.

(** * Further properties of the buffer *)

(** ** Capacity and exceptions *)

Lemma extend_max_length {A} (items : list A) self :
  _max_length (extend items self).2 = _max_length self.
Proof.
  rewrite extend_appends. revert self.
  induction items as [|item items IH]; intros self; [done|]. simpl.
  pose proof (append_max_length item self) as Hstep.
  destruct (append item self) as [[[]|e] self']; simpl in *; [|done].
  by rewrite IH.
Qed.

(** X1: the capacity a buffer was created with is what its property
    [max_length] returns in every state the buffer can be in; no call of
    [append] or [extend] changes it, whether the call returns or raises. *)
Theorem max_length_fixed {A} cap (given : list A) self :
  reaches cap given self ->
  max_length self = cap /\
  forall item items,
    max_length (append item self).2 = cap /\
    max_length (extend items self).2 = cap.
Proof.
  intros (Hcap & _ & _)%reaches_represents. unfold max_length.
  split; [done|]. intros item items.
  by rewrite append_max_length, extend_max_length.
Qed.

Lemma max_length_fixed_witness :
  let self := (appends [1; 2; 3; 4; 5] (__init__ (Some 3))).2 in
  reaches (Some 3) [1; 2; 3; 4; 5] self /\
  max_length self = Some 3 /\
  max_length (append 6 self).2 = Some 3 /\
  max_length (extend [6; 7] self).2 = Some 3.
Proof.
  intros self.
  pose proof (reaches_appends (Some 3) [1; 2; 3; 4; 5]) as Hreach.
  destruct (max_length_fixed (Some 3) [1; 2; 3; 4; 5] self Hreach)
    as [Hnow Hlater].
  split; [exact Hreach|]. split; [exact Hnow|]. exact (Hlater 6 [6; 7]).
Defined.

(** X2: on a reachable buffer [append] raises exactly when the buffer was
    created with a capacity that is zero or negative; the exception is then
    [IndexError] (never [ZeroDivisionError], although the capacity is a
    divisor in the method) and the buffer is left as it was. *)
Theorem append_raises_iff {A} cap (given : list A) self item :
  reaches cap given self ->
  ((append item self).1 = Ok () <-> forall m, cap = Some m -> 0 < m) /\
  ((append item self).1 <> Ok () ->
   append item self = (Raise IndexError, self)).
Proof.
  intros (Hcap & Hwf & _)%reaches_represents.
  destruct (append_cases item self Hwf)
    as [Hgrow _ ->|m Hm Hpos _ _ ->|m Hm Hle _ _ ->]; simpl.
  - split; [|done]. split; [|done]. intros _ m Hm.
    destruct Hgrow as [Hnone|(m' & Hm' & Hlt)]; [congruence|].
    assert (m' = m) as -> by congruence. unfold __len__ in Hlt. lia.
  - split; [|done]. split; [|done]. intros _ m' Hm'.
    assert (m' = m) as -> by congruence. done.
  - split; [|done]. split; [done|]. intros Hpos.
    specialize (Hpos m). rewrite <- Hcap in Hpos. specialize (Hpos Hm). lia.
Qed.

Lemma append_raises_iff_witness :
  reaches (Some (-2)) [] (@__init__ Z (Some (-2))) /\
  (append 1 (__init__ (Some (-2)))).1 <> Ok () /\
  append 1 (__init__ (Some (-2)))
    = (Raise IndexError, __init__ (Some (-2))).
Proof.
  pose proof (reaches_init (A:=Z) (Some (-2))) as Hreach.
  destruct (append_raises_iff (Some (-2)) [] _ 1 Hreach) as [_ Hraise].
  assert ((append 1 (@__init__ Z (Some (-2)))).1 <> Ok ()) as Hne
    by discriminate.
  split; [exact Hreach|]. split; [exact Hne|]. exact (Hraise Hne).
Defined.

(** X3: on a reachable buffer [extend] returns exactly when it is given no
    item or the buffer was created without a capacity or with a positive
    one; when it raises, the exception is [IndexError] and the buffer is
    left as it was, with none of the items in it. *)
Theorem extend_raises_iff {A} cap (given : list A) self items :
  reaches cap given self ->
  ((extend items self).1 = Ok () <->
   items = [] \/ forall m, cap = Some m -> 0 < m) /\
  ((extend items self).1 <> Ok () ->
   extend items self = (Raise IndexError, self)).
Proof.
  intros Hreach. pose proof (reaches_represents _ _ _ Hreach) as Hrep.
  rewrite extend_appends.
  assert ((forall m, cap = Some m -> 0 < m) \/
          ~ (forall m, cap = Some m -> 0 < m)) as [Hpos|Hneg].
  { destruct cap as [m|]; [|by left].
    destruct (decide (0 < m)) as [Hm|Hm].
    - left. by intros ? [= <-].
    - right. intros Hpos. by apply Hm, Hpos. }
  - rewrite (appends_returns cap given items self Hrep Hpos).
    split; [|done]. split; [by right|done].
  - destruct items as [|item items]; [split; [split; [by left|done]|done]|].
    simpl.
    destruct (append_raises_iff cap given self item Hreach) as [Hiff Hraise].
    assert ((append item self).1 <> Ok ()) as Hne by (by rewrite Hiff).
    rewrite (Hraise Hne). simpl.
    split; [|done]. split; [done|]. by intros [?|?].
Qed.

Lemma extend_raises_iff_witness :
  reaches (Some 0) [] (@__init__ Z (Some 0)) /\
  (extend [1; 2] (__init__ (Some 0))).1 <> Ok () /\
  extend [1; 2] (__init__ (Some 0)) = (Raise IndexError, __init__ (Some 0)).
Proof.
  pose proof (reaches_init (A:=Z) (Some 0)) as Hreach.
  destruct (extend_raises_iff (Some 0) [] _ [1; 2] Hreach) as [_ Hraise].
  assert ((extend [1; 2] (@__init__ Z (Some 0))).1 <> Ok ()) as Hne
    by discriminate.
  split; [exact Hreach|]. split; [exact Hne|]. exact (Hraise Hne).
Defined.

(** ** Reading, whatever the state *)

(** X4: in every state of the object, also one that no sequence of calls
    leads to (a cursor outside the storage, a storage longer than the
    capacity), [__getitem__] either returns an item that is in the storage
    or fails its range assertion; neither the modulo nor the list access
    inside it ever raises. *)
Theorem getitem_never_escapes {A} (self : ReplayBuffer A) index :
  (exists x, __getitem__ index self = Ok x /\ x ∈ _data self) \/
  __getitem__ index self = Raise AssertionError.
Proof.
  destruct (decide (- __len__ self <= index < __len__ self)) as [Hin|Hout].
  - left. destruct (getitem_inside self index Hin) as (x & Hget & Hx).
    exists x. split; [done|]. by eapply list_elem_of_lookup_2.
  - right. by apply getitem_outside.
Qed.

(** ** A buffer without capacity *)

(** X5: a buffer created without a capacity stores every item it is given,
    in the order given, with the cursor at 0; [append] and [extend] always
    return on it, and a non-negative index reads the item given at that
    position. *)
Theorem unbounded_storage {A} (given : list A) self :
  reaches None given self ->
  _data self = given /\ _offset self = 0 /\
  (forall item, append item self = (Ok (), data_append item self)) /\
  (forall items, (extend items self).1 = Ok () /\
     _data (extend items self).2 = given ++ items) /\
  (forall (i : nat) x, given !! i = Some x ->
     __getitem__ (Z.of_nat i) self = Ok x).
Proof.
  intros Hreach.
  pose proof (reaches_represents _ _ _ Hreach) as (Hcap & Hwf & Hview).
  assert (_offset self = 0) as Ho.
  { destruct Hwf as [[?|[Hfull _]] _]; [done|congruence]. }
  assert (_data self = given) as Hdata.
  { unfold contents in Hview. by rewrite Ho, rotate_0 in Hview. }
  split; [done|]. split; [done|]. split; [|split].
  - intros item. unfold append. by rewrite Hcap.
  - intros items. unfold extend. rewrite Hcap. simpl. by rewrite Hdata.
  - intros i x Hx. pose proof (lookup_lt_Some _ _ _ Hx) as Hi.
    destruct (reaches_getitem None given self (Z.of_nat i) Hreach)
      as (y & Hget & Hy).
    { unfold __len__. rewrite Hdata. lia. }
    rewrite Hget. f_equal. simpl in Hy.
    rewrite Z.mod_small, Nat2Z.id in Hy
      by (unfold __len__; rewrite Hdata; lia).
    congruence.
Qed.

(** The scenario of two calls of [extend], with 1, 2, 3 and with 4, 5. *)
Lemma unbounded_storage_witness :
  let self := (extend [4; 5] (extend [1; 2; 3] (__init__ None)).2).2 in
  reaches None ([] ++ [1; 2; 3] ++ [4; 5]) self /\
  _data self = [1; 2; 3; 4; 5] /\ _offset self = 0 /\
  __getitem__ 4 self = Ok 5.
Proof.
  intros self.
  assert (reaches None ([] ++ [1; 2; 3] ++ [4; 5]) self) as Hreach.
  { rewrite app_assoc. apply reaches_extend, reaches_extend, reaches_init. }
  destruct (unbounded_storage _ self Hreach) as (Hdata & Ho & _ & _ & Hget).
  split; [exact Hreach|]. split; [exact Hdata|]. split; [exact Ho|].
  apply (Hget 4%nat). reflexivity.
Defined.

(** ** Composing calls *)

Lemma appends_app {A} (xs ys : list A) self :
  appends (xs ++ ys) self =
  match appends xs self with
  | (Ok _, self') => appends ys self'
  | (Raise e, self') => (Raise e, self')
  end.
Proof.
  revert self. induction xs as [|x xs IH]; intros self; [done|]. simpl.
  destruct (append x self) as [[[]|e] self']; [apply IH|done].
Qed.

(** X6: in every state, extending by the items [xs ++ ys] is extending by
    [xs] and then, when that returned, by [ys]; when the first call raises,
    so does the single one, with the same exception and the same buffer
    afterwards. *)
Theorem extend_app {A} (xs ys : list A) self :
  extend (xs ++ ys) self =
  match extend xs self with
  | (Ok _, self') => extend ys self'
  | (Raise e, self') => (Raise e, self')
  end.
Proof.
  rewrite !extend_appends, appends_app.
  destruct (appends xs self) as [[[]|e] self']; [|done].
  by rewrite extend_appends.
Qed.

(** X7: on a reachable buffer created without a capacity or with a positive
    one, the item just appended is the one the index -1 reads, and after
    [extend] with at least one item the index -1 reads the last of them. *)
Theorem newest_read_back {A} cap (given : list A) self item items :
  reaches cap given self ->
  (forall m, cap = Some m -> 0 < m) ->
  __getitem__ (-1) (append item self).2 = Ok item /\
  __getitem__ (-1) (extend (items ++ [item]) self).2 = Ok item.
Proof.
  intros Hreach Hpos.
  assert (forall (more : list A) self',
            reaches cap (given ++ more ++ [item]) self' ->
            __getitem__ (-1) self' = Ok item) as Hlast.
  { intros more self' Hreach'.
    pose proof (reaches_len _ _ _ Hreach') as Hlen.
    assert (0 < length (retained cap (given ++ more ++ [item])) <=
            length (given ++ more ++ [item]))%nat as Hsize.
    { rewrite retained_length, !length_app. simpl.
      destruct cap as [m|]; [|lia]. specialize (Hpos m eq_refl). lia. }
    destruct (reaches_getitem_given _ _ _ (-1) Hreach') as (x & -> & Hx);
      [lia|].
    f_equal.
    assert ((-1) `mod` __len__ self' = __len__ self' - 1) as Hmod.
    { replace (-1) with (__len__ self' - 1 + (-1) * __len__ self') by lia.
      rewrite Z.mod_add by lia. apply Z.mod_small. lia. }
    rewrite Hmod, app_assoc in Hx.
    rewrite lookup_app_r in Hx by (rewrite !length_app in *; simpl in *; lia).
    replace (_ - _)%nat with 0%nat in Hx
      by (rewrite !length_app in *; simpl in *; lia).
    simpl in Hx. congruence. }
  split.
  - apply (Hlast []). simpl. by apply reaches_append.
  - apply (Hlast items). by apply reaches_extend.
Qed.

Lemma newest_read_back_witness :
  let self := (appends [1; 2; 3; 4; 5] (__init__ (Some 3))).2 in
  reaches (Some 3) [1; 2; 3; 4; 5] self /\
  __getitem__ (-1) (append 6 self).2 = Ok 6 /\
  __getitem__ (-1) (extend ([7; 8; 9; 10] ++ [6]) self).2 = Ok 6.
Proof.
  intros self.
  pose proof (reaches_appends (Some 3) [1; 2; 3; 4; 5]) as Hreach.
  split; [exact Hreach|].
  apply (newest_read_back (Some 3) [1; 2; 3; 4; 5] self 6 [7; 8; 9; 10]
           Hreach).
  intros m [= <-]. reflexivity.
Defined.

(** ** The cursor cannot be observed *)

(** A well-formed buffer is in the state of a buffer that was given what it
    shows. *)
Lemma wf_represents {A} (self : ReplayBuffer A) :
  wf self -> represents (_max_length self) (contents self) self.
Proof.
  intros Hwf. split; [done|]. split; [done|].
  destruct (_max_length self) as [m|] eqn:Hm; simpl; [|done].
  symmetry. apply keep_last_all. rewrite contents_length.
  destruct Hwf as [_ Hle]. specialize (Hle m Hm).
  unfold __len__ in Hle. lia.
Qed.

(** Two well-formed buffers show the same items exactly when
    [__getitem__] cannot tell them apart. *)
Lemma contents_ext {A} (s1 s2 : ReplayBuffer A) :
  wf s1 -> wf s2 ->
  (forall i, __getitem__ i s1 = __getitem__ i s2) ->
  contents s1 = contents s2.
Proof.
  intros Hwf1 Hwf2 Hsame.
  assert (forall (a b : ReplayBuffer A),
            (forall i, __getitem__ i a = __getitem__ i b) ->
            __len__ a <= __len__ b) as Hle.
  { intros a b Hab.
    destruct (Z.le_gt_cases (__len__ a) (__len__ b)) as [|Hgt]; [done|].
    destruct (getitem_inside a (__len__ b)) as (x & Hx & _).
    { unfold __len__ in *. lia. }
    rewrite Hab, getitem_outside in Hx by lia. done. }
  assert (__len__ s1 = __len__ s2) as Hlen.
  { apply Z.le_antisymm; apply Hle; [done|]. intros i. by rewrite Hsame. }
  apply list_eq. intros n.
  destruct (decide (Z.of_nat n < __len__ s1)) as [Hn|Hn].
  - destruct (getitem_contents s1 (Z.of_nat n) Hwf1) as (x & Hx & Hx');
      [lia|].
    destruct (getitem_contents s2 (Z.of_nat n) Hwf2) as (y & Hy & Hy');
      [lia|].
    rewrite Z.mod_small, Nat2Z.id in Hx', Hy' by lia.
    rewrite Hsame in Hx. congruence.
  - rewrite !lookup_ge_None_2; [done| |]; rewrite contents_length;
      unfold __len__ in *; lia.
Qed.

Lemma getitem_ext {A} (s1 s2 : ReplayBuffer A) :
  wf s1 -> wf s2 -> contents s1 = contents s2 ->
  forall i, __getitem__ i s1 = __getitem__ i s2.
Proof.
  intros Hwf1 Hwf2 Hsame i.
  assert (__len__ s1 = __len__ s2) as Hlen.
  { unfold __len__. by rewrite <- !contents_length, Hsame. }
  destruct (decide (- __len__ s1 <= i < __len__ s1)) as [Hin|Hout].
  - destruct (getitem_contents s1 i Hwf1 Hin) as (x & -> & Hx).
    destruct (getitem_contents s2 i Hwf2) as (y & -> & Hy); [lia|].
    rewrite <- Hlen, <- Hsame in Hy. congruence.
  - rewrite !getitem_outside; [done|lia|done].
Qed.

(** X8: two reachable buffers of the same capacity that [__getitem__]
    cannot tell apart, whatever was given to each and wherever its cursor
    is, cannot be told apart after the same call of [extend] or [append]
    either: what a buffer will show depends on what it shows, not on how it
    got there. *)
Theorem reads_determine_future {A} cap (given1 given2 : list A) s1 s2 :
  reaches cap given1 s1 -> reaches cap given2 s2 ->
  (forall i, __getitem__ i s1 = __getitem__ i s2) ->
  forall items item i,
    __getitem__ i (extend items s1).2 = __getitem__ i (extend items s2).2 /\
    __getitem__ i (append item s1).2 = __getitem__ i (append item s2).2.
Proof.
  intros Hreach1 Hreach2 Hsame.
  pose proof (reaches_represents _ _ _ Hreach1) as (Hcap1 & Hwf1 & _).
  pose proof (reaches_represents _ _ _ Hreach2) as (Hcap2 & Hwf2 & _).
  pose proof (contents_ext s1 s2 Hwf1 Hwf2 Hsame) as Hview.
  assert (forall items i,
            __getitem__ i (appends items s1).2
              = __getitem__ i (appends items s2).2) as Hext.
  { intros items.
    pose proof (appends_represents _ _ items _ (wf_represents s1 Hwf1))
      as (_ & Hwf1' & Hview1).
    pose proof (appends_represents _ _ items _ (wf_represents s2 Hwf2))
      as (_ & Hwf2' & Hview2).
    apply getitem_ext; [done|done|].
    by rewrite Hview1, Hview2, Hcap1, Hcap2, Hview. }
  intros items item i. split.
  - rewrite !extend_appends. apply Hext.
  - specialize (Hext [item] i). simpl in Hext.
    by destruct (append item s1) as [[[]|?] ?],
      (append item s2) as [[[]|?] ?].
Qed.

(** Two buffers of capacity 2 that show 3 and 4, one with the cursor at 0
    and one with the cursor at 1. *)
Lemma reads_determine_future_witness :
  let s1 := (appends [1; 2; 3; 4] (__init__ (Some 2))).2 in
  let s2 := (appends [2; 3; 4] (__init__ (Some 2))).2 in
  reaches (Some 2) [1; 2; 3; 4] s1 /\ reaches (Some 2) [2; 3; 4] s2 /\
  _offset s1 <> _offset s2 /\
  (forall i, __getitem__ i s1 = __getitem__ i s2) /\
  forall i, __getitem__ i (extend [5; 6; 7] s1).2
            = __getitem__ i (extend [5; 6; 7] s2).2.
Proof.
  intros s1 s2.
  pose proof (reaches_appends (Some 2) [1; 2; 3; 4]) as Hreach1.
  pose proof (reaches_appends (Some 2) [2; 3; 4]) as Hreach2.
  assert (forall i, __getitem__ i s1 = __getitem__ i s2) as Hsame.
  { intros i. destruct (decide (- 2 <= i < 2)) as [Hin|Hout].
    - assert (i = -2 \/ i = -1 \/ i = 0 \/ i = 1) as [->|[->|[->| ->]]]
        by lia; reflexivity.
    - rewrite !getitem_outside; [reflexivity|exact Hout|exact Hout]. }
  split; [exact Hreach1|]. split; [exact Hreach2|].
  split; [discriminate|]. split; [exact Hsame|].
  intros i.
  exact (proj1 (reads_determine_future (Some 2) _ _ s1 s2
                  Hreach1 Hreach2 Hsame [5; 6; 7] 0 i)).
Defined.

(** * The discretization wrapper *)

Lemma comprehension_Ok {A B} (f : A -> result B) l ys :
  comprehension f l = Ok ys -> Forall2 (fun x y => f x = Ok y) l ys.
Proof.
  revert ys. induction l as [|x l IH]; intros ys; simpl.
  - intros [= <-]. constructor.
  - destruct (f x) as [y|e] eqn:Hx; simpl; [|done].
    destruct (comprehension f l) as [ys'|e]; simpl; [|done].
    intros [= <-]. constructor; [done|]. by apply IH.
Qed.

Lemma integer_digitize_contract : @digitize_contract Z integer_floats.
Proof.
  intros x bins d [= <-]. pose proof (length_filter (fun b => b <= x) bins).
  lia.
Qed.

Module DiscretizationWrapperFacts.
Import DiscretizationWrapper.

Section WithFloats.
Context {V : Type} `{Floats V}.
Implicit Types (separators : list (list V)) (observations : list V).

Lemma foldl_cells extra n separators :
  foldl (fun n separator => n * (extra + Z.of_nat (length separator)))
        n separators
  = n * cells extra separators.
Proof.
  unfold cells. revert n.
  induction separators as [|s separators IH]; intros n; simpl; [lia|].
  rewrite IH, (IH (1 * _)). lia.
Qed.

Lemma cells_cons extra s separators :
  cells extra (s :: separators)
  = (extra + Z.of_nat (length s)) * cells extra separators.
Proof. unfold cells at 1. simpl. rewrite foldl_cells. lia. Qed.

Lemma cells_app extra separators s :
  cells extra (separators ++ [s])
  = cells extra separators * (extra + Z.of_nat (length s)).
Proof. unfold cells at 1. by rewrite foldl_app. Qed.

Lemma cells_pos extra separators : 0 < extra -> 0 < cells extra separators.
Proof.
  intros Hextra. induction separators as [|s separators IH].
  - done.
  - rewrite cells_cons. lia.
Qed.

Lemma init_plain separators :
  __init__ separators None =
  Ok {| _separators := separators; _tiling := None;
        observation_space := Discrete (cells 1 separators) |}.
Proof. done. Qed.

Lemma foldl_both separators first rest :
  foldl (fun '(first, rest) separator =>
           (first * (1 + Z.of_nat (length separator)),
            rest * (2 + Z.of_nat (length separator))))
        (first, rest) separators
  = (first * cells 1 separators, rest * cells 2 separators).
Proof.
  revert first rest.
  induction separators as [|s separators IH]; intros first rest; simpl.
  - f_equal; unfold cells; simpl; lia.
  - rewrite IH, !cells_cons. f_equal; lia.
Qed.

(** What [__init__] leaves in the object when tiles are asked for. *)
Lemma init_tiled separators tiles self :
  __init__ separators (Some tiles) = Ok self ->
  exists offsets,
    comprehension (separator_offset tiles) separators = Ok offsets /\
    self =
      {| _separators := separators;
         _tiling := Some {| _tiles := tiles;
                            _first_tile_states := cells 1 separators;
                            _rest_tiles_states := cells 2 separators;
                            _separator_offsets := offsets;
                            _separator_tops := separator_top <$> separators |};
         observation_space :=
           MultiDiscrete
             ((fun i => cells 1 separators + i * cells 2 separators)
                <$> seqZ 0 tiles) |}.
Proof.
  unfold __init__. rewrite foldl_both, !Z.mul_1_l.
  destruct (comprehension _ separators) as [offsets|e]; simpl; [|done].
  intros [= <-]. eauto.
Qed.

Section Contract.
Hypothesis Hdigitize : digitize_contract V.

Lemma first_tile_bound observations separators state n s :
  0 <= state < n ->
  first_tile state (zip observations separators) = Ok s ->
  0 <= s < n * cells 1 separators.
Proof.
  revert observations state n.
  induction separators as [|sep separators IH];
    intros observations state n Hstate.
  - destruct observations; simpl; intros [= <-]; unfold cells; simpl; lia.
  - pose proof (cells_pos 1 separators ltac:(lia)).
    rewrite cells_cons.
    assert (1 <= (1 + Z.of_nat (length sep)) * cells 1 separators) by nia.
    destruct observations as [|o observations]; simpl.
    + intros [= <-]. nia.
    + destruct (digitize o sep) as [d|e] eqn:Hd; cbn; [|done].
      apply Hdigitize in Hd. intros Hs.
      apply (IH _ _ (n * (1 + Z.of_nat (length sep)))) in Hs; [lia|nia].
Qed.

Lemma rest_tile_bound tile observations t i state separators n s :
  0 <= state < n ->
  rest_tile tile observations t i state separators = Ok s ->
  0 <= s < n * cells 2 separators.
Proof.
  revert i state n.
  induction separators as [|sep separators IH]; intros i state n Hstate.
  - simpl. intros [= <-]. unfold cells. simpl. lia.
  - pose proof (cells_pos 2 separators ltac:(lia)).
    rewrite cells_cons. simpl.
    destruct (list_getitem observations i) as [o|e]; cbn; [|done].
    destruct (py_mod _ _) as [k|e]; cbn; [|done].
    destruct (list_getitem (_separator_offsets tile) i) as [off|e]; cbn;
      [|done].
    destruct (list_getitem (_separator_tops tile) i) as [top|e]; cbn;
      [|done].
    destruct (fgt _ top).
    + intros Hs.
      apply (IH _ _ (n * (2 + Z.of_nat (length sep)))) in Hs; [lia|nia].
    + destruct (digitize _ sep) as [d|e] eqn:Hd; cbn; [|done].
      apply Hdigitize in Hd. intros Hs.
      apply (IH _ _ (n * (2 + Z.of_nat (length sep)))) in Hs; [lia|nia].
Qed.

Lemma first_tile_returns state (pairs : list (V * list V)) :
  Forall (fun p => is_ok (digitize p.1 p.2) = true) pairs ->
  exists s, first_tile state pairs = Ok s.
Proof.
  intros Hall. revert state.
  induction Hall as [|[o sep] pairs Hd _ IH]; intros state; simpl; [eauto|].
  simpl in Hd. destruct (digitize o sep) as [d|e]; [|done]. cbn. apply IH.
Qed.

(** X9: a wrapper created without tiles declares the space
    [Discrete(n)], [n] being the product of [1 + len(separator)] over the
    separators, and whatever [observation] returns is one index between 0
    and [n - 1], for observation vectors of any length (a shorter one is
    paired with the first separators only); it does return when
    [np.digitize] does on every pair. *)
Theorem observation_in_discrete separators self observations :
  __init__ separators None = Ok self ->
  fits_int64 (observation_space self) ->
  observation_space self = Discrete (cells 1 separators) /\
  (forall r, observation self observations = Ok r ->
     exists s, r = State s /\ 0 <= s < cells 1 separators) /\
  (Forall (fun p => is_ok (digitize p.1 p.2) = true)
     (zip observations separators) ->
   is_ok (observation self observations) = true).
Proof.
  rewrite init_plain. intros [= <-] _. split; [done|].
  unfold observation. simpl. split.
  - intros r.
    destruct (first_tile 0 _) as [s|e] eqn:Hs; cbn; [|done].
    intros [= <-]. exists s. split; [done|].
    apply (first_tile_bound _ _ 0 1) in Hs; lia.
  - intros Hall. destruct (first_tile_returns 0 _ Hall) as [s ->]. done.
Qed.

Lemma first_tile_snoc state (pairs : list (V * list V)) o sep :
  first_tile state (pairs ++ [(o, sep)]) =
  s ← first_tile state pairs;
  d ← digitize o sep;
  Ok (s * (1 + Z.of_nat (length sep)) + d).
Proof.
  revert state. induction pairs as [|[o' sep'] pairs IH]; intros state.
  - simpl. by destruct (digitize o sep).
  - simpl. destruct (digitize o' sep') as [d|e]; cbn; [apply IH|done].
Qed.

Lemma same_state_same_digits separators observations1 observations2 s :
  length observations1 = length separators ->
  length observations2 = length separators ->
  first_tile 0 (zip observations1 separators) = Ok s ->
  first_tile 0 (zip observations2 separators) = Ok s ->
  Forall2 (fun p1 p2 => digitize p1.1 p1.2 = digitize p2.1 p2.2)
    (zip observations1 separators) (zip observations2 separators).
Proof.
  revert observations1 observations2 s.
  induction separators as [|sep separators IH] using rev_ind;
    intros o1 o2 s Hlen1 Hlen2.
  - destruct o1, o2; try done; intros; constructor.
  - rewrite length_app in Hlen1, Hlen2. simpl in *.
    destruct o1 as [|x1 o1 _] using rev_ind; [simpl in *; lia|].
    destruct o2 as [|x2 o2 _] using rev_ind; [simpl in *; lia|].
    rewrite length_app in Hlen1, Hlen2. simpl in *.
    rewrite !zip_with_app by lia. simpl.
    rewrite !first_tile_snoc.
    destruct (first_tile 0 (zip_with pair o1 separators)) as [s1|e] eqn:Hs1;
      cbn; [|done].
    destruct (first_tile 0 (zip_with pair o2 separators)) as [s2|e] eqn:Hs2;
      cbn; [|done].
    destruct (digitize x1 sep) as [d1|e] eqn:Hd1; cbn; [|done].
    destruct (digitize x2 sep) as [d2|e] eqn:Hd2; cbn; [|done].
    intros [= <-] [= Heq].
    pose proof (Hdigitize _ _ _ Hd1). pose proof (Hdigitize _ _ _ Hd2).
    assert (s1 = s2) as ->
      by (destruct (Z.lt_trichotomy s1 s2) as [?|[?|?]]; [nia|done|nia]).
    assert (d1 = d2) as -> by lia.
    apply Forall2_app; [|by constructor; [simpl; congruence|]].
    apply (IH o1 o2 s2); [lia|lia|done|done].
Qed.

(** X10: without tiles the index identifies the cell: when [observation]
    returns the same index for two observation vectors, each as long as
    the list of separators, [np.digitize] puts them in the same interval on
    every axis. *)
Theorem same_state_same_cell separators self observations1 observations2
    s (i : nat) sep x1 x2 :
  __init__ separators None = Ok self ->
  fits_int64 (observation_space self) ->
  length observations1 = length separators ->
  length observations2 = length separators ->
  observation self observations1 = Ok (State s) ->
  observation self observations2 = Ok (State s) ->
  separators !! i = Some sep ->
  observations1 !! i = Some x1 -> observations2 !! i = Some x2 ->
  digitize x1 sep = digitize x2 sep.
Proof.
  rewrite init_plain. intros [= <-] _ Hlen1 Hlen2. unfold observation. simpl.
  destruct (first_tile 0 (zip observations1 _)) as [s1|e] eqn:Hs1; cbn;
    [|done].
  destruct (first_tile 0 (zip observations2 _)) as [s2|e] eqn:Hs2; cbn;
    [|done].
  intros [= ->] [= ->] Hsep Hx1 Hx2.
  pose proof (same_state_same_digits _ _ _ _ Hlen1 Hlen2 Hs1 Hs2) as Hall.
  apply (Forall2_lookup_lr _ _ _ i (x1, sep) (x2, sep)) in Hall; [done| |].
  - rewrite lookup_zip_with, Hx1, Hsep. done.
  - rewrite lookup_zip_with, Hx2, Hsep. done.
Qed.

(** X11: a wrapper created with [tiles] declares the space
    [MultiDiscrete(nvec)] with [tiles] bounds, and whatever [observation]
    returns is an array of [tiles] indices, the one of the tile [t] below
    [nvec[t]] and, from the second tile on, not below [nvec[t - 1]]: the
    indices are in the space and those of different tiles are in disjoint
    ranges. *)
Theorem observation_in_multidiscrete separators tiles self observations r :
  __init__ separators (Some tiles) = Ok self ->
  fits_int64 (observation_space self) ->
  observation self observations = Ok r ->
  exists states nvec,
    r = States states /\ observation_space self = MultiDiscrete nvec /\
    0 < tiles /\ Z.of_nat (length states) = tiles /\
    length nvec = length states /\
    forall (t : nat) s, states !! t = Some s ->
      exists n, nvec !! t = Some n /\
        match t with O => 0 | S t' => default 0 (nvec !! t') end <= s < n.
Proof.
  intros (offsets & _ & ->)%init_tiled _. unfold observation. simpl.
  destruct (first_tile 0 _) as [s0|e] eqn:Hs0; cbn; [|done].
  apply (first_tile_bound _ _ 0 1) in Hs0; [|lia].
  destruct (Z.ltb_spec tiles 0); [done|].
  destruct (Z.eqb_spec tiles 0); [done|].
  destruct (comprehension _ (seqZ 1 (tiles - 1))) as [rest|e] eqn:Hrest;
    cbn; [|done].
  intros [= <-]. apply comprehension_Ok in Hrest.
  pose proof (Forall2_length _ _ _ Hrest) as Hlen.
  rewrite length_seqZ in Hlen.
  eexists _, _. split; [done|]. split; [done|]. split; [lia|].
  split; [simpl; lia|].
  split; [rewrite length_fmap, length_seqZ; simpl; lia|].
  intros t s Ht.
  assert (Z.of_nat t < tiles) as Hlt.
  { apply lookup_lt_Some in Ht. simpl in Ht. lia. }
  exists (cells 1 separators + Z.of_nat t * cells 2 separators).
  split.
  { rewrite list_lookup_fmap, lookup_seqZ_lt by lia. done. }
  pose proof (cells_pos 2 separators ltac:(lia)) as Hpos.
  destruct t as [|t].
  - injection Ht as <-. lia.
  - simpl in Ht.
    rewrite list_lookup_fmap, lookup_seqZ_lt by lia. simpl.
    destruct (Forall2_lookup_r _ _ _ _ _ Hrest Ht) as (tz & Htz & Hs).
    apply lookup_seqZ in Htz as [-> _].
    destruct (rest_tile _ observations _ 0 0 separators) as [st|e] eqn:Hst;
      cbn in Hs; [|done].
    injection Hs as <-.
    apply (rest_tile_bound _ _ _ _ 0 _ 1) in Hst; lia.
Qed.
End Contract.

Lemma list_getitem_ge {A} (l : list A) i :
  Z.of_nat (length l) <= i -> list_getitem l i = Raise IndexError.
Proof.
  intros Hi. unfold list_getitem.
  assert (py_index (length l) i = None) as -> by (apply py_index_None; lia).
  done.
Qed.

Lemma list_getitem_lt {A} (l : list A) i :
  0 <= i < Z.of_nat (length l) -> exists x, list_getitem l i = Ok x.
Proof.
  intros Hi.
  destruct (list_getitem_nat l (Z.to_nat i)) as (x & Hx & _); [lia|].
  rewrite Z2Nat.id in Hx by lia. eauto.
Qed.

(** The loop of a tile runs into the end of an observation vector that is
    shorter than the list of separators. *)
Lemma rest_tile_short tile observations t i state separators :
  _tiles tile <> 0 ->
  (forall (x : V) bins, is_ok (digitize x bins) = true) ->
  0 <= i <= Z.of_nat (length observations) ->
  Z.of_nat (length observations) < i + Z.of_nat (length separators) ->
  i + Z.of_nat (length separators)
    <= Z.of_nat (length (_separator_offsets tile)) ->
  i + Z.of_nat (length separators)
    <= Z.of_nat (length (_separator_tops tile)) ->
  rest_tile tile observations t i state separators = Raise IndexError.
Proof.
  intros Htiles Htotal. revert i state.
  induction separators as [|sep separators IH];
    intros i state Hi Hshort Hoffsets Htops; simpl in *; [lia|].
  destruct (decide (i = Z.of_nat (length observations))) as [->|Hne].
  { by rewrite (list_getitem_ge observations) by lia. }
  destruct (list_getitem_lt observations i) as [o ->]; [lia|]. cbn.
  unfold py_mod. destruct (Z.eqb_spec (_tiles tile) 0); [done|]. cbn.
  destruct (list_getitem_lt (_separator_offsets tile) i) as [off ->]; [lia|].
  cbn.
  destruct (list_getitem_lt (_separator_tops tile) i) as [top ->]; [lia|].
  cbn.
  destruct (fgt _ top).
  - apply IH; lia.
  - specialize (Htotal (fadd o (fmul_int ((t * (2 * i + 1)) `mod` _tiles tile)
                                  off)) sep).
    destruct (digitize _ sep) as [d|e]; [|done]. cbn. apply IH; lia.
Qed.

(** X12: with two tiles or more, [observation] raises [IndexError] on an
    observation vector that is shorter than the list of separators (when
    [np.digitize] itself does not raise), whereas without tiles it returns
    an index for such a vector. *)
Theorem short_observation_raises separators tiles self observations :
  __init__ separators (Some tiles) = Ok self ->
  2 <= tiles ->
  (length observations < length separators)%nat ->
  (forall (x : V) bins, is_ok (digitize x bins) = true) ->
  observation self observations = Raise IndexError.
Proof.
  intros (offsets & Hoffsets & ->)%init_tiled Htiles Hshort Htotal.
  apply comprehension_Ok, Forall2_length in Hoffsets.
  unfold observation. simpl.
  destruct (first_tile_returns 0 (zip observations separators)) as [s0 ->].
  { apply Forall_forall. intros p _. apply Htotal. }
  cbn.
  destruct (Z.ltb_spec tiles 0); [lia|].
  destruct (Z.eqb_spec tiles 0); [lia|].
  rewrite seqZ_cons by lia. simpl.
  rewrite rest_tile_short; [done|simpl; lia|done|lia|lia|simpl; lia|].
  simpl. rewrite length_fmap. lia.
Qed.
End WithFloats.

#[local] Existing Instance integer_floats.

(** The integers standing in for floats: three axes, with 3, 1 and 0
    separators, hence a grid of 4 * 2 * 1 cells. *)
Lemma observation_in_discrete_witness :
  let separators := [[10; 20; 30]; [5]; []] in
  exists self, @__init__ Z integer_floats separators None = Ok self /\
    fits_int64 (observation_space self) /\
    observation_space self = Discrete 8 /\
    (forall r, observation self [25; 7; 0] = Ok r ->
       exists s, r = State s /\ 0 <= s < 8) /\
    is_ok (observation self [25; 7; 0]) = true.
Proof.
  intros separators. eexists. split; [reflexivity|].
  assert (fits_int64 (Discrete 8)) as Hfits by reflexivity.
  destruct (@observation_in_discrete Z integer_floats
              integer_digitize_contract separators _ [25; 7; 0]
              eq_refl Hfits) as (Hspace & Hbound & Hreturns).
  split; [exact Hfits|]. split; [exact Hspace|]. split; [exact Hbound|].
  apply Hreturns. repeat constructor.
Defined.

Lemma same_state_same_cell_witness :
  let separators := [[10; 20; 30]; [5]; []] in
  exists self, @__init__ Z integer_floats separators None = Ok self /\
    observation self [25; 7; 0] = Ok (State 5) /\
    observation self [29; 5; 3] = Ok (State 5) /\
    @digitize Z integer_floats 25 [10; 20; 30]
      = @digitize Z integer_floats 29 [10; 20; 30].
Proof.
  intros separators. eexists. split; [reflexivity|].
  split; [reflexivity|]. split; [reflexivity|].
  assert (fits_int64 (@Discrete 8)) as Hfits by reflexivity.
  exact (@same_state_same_cell Z integer_floats integer_digitize_contract
           separators _ [25; 7; 0] [29; 5; 3] 5 0%nat [10; 20; 30] 25 29
           eq_refl Hfits eq_refl eq_refl eq_refl eq_refl eq_refl eq_refl
           eq_refl).
Defined.

Lemma observation_in_multidiscrete_witness :
  let separators := [[10; 20; 30]; [5]; []] in
  exists self, @__init__ Z integer_floats separators (Some 3) = Ok self /\
    observation self [25; 7; 0] = Ok (States [5; 22; 58]) /\
    exists states nvec,
      States [5; 22; 58] = States states /\
      observation_space self = MultiDiscrete nvec /\
      Z.of_nat (length states) = 3 /\
      forall (t : nat) s, states !! t = Some s ->
        exists n, nvec !! t = Some n /\
          match t with O => 0 | S t' => default 0 (nvec !! t') end <= s < n.
Proof.
  intros separators. eexists. split; [reflexivity|].
  split; [reflexivity|].
  assert (fits_int64 (@MultiDiscrete [8; 38; 68])) as Hfits by reflexivity.
  destruct (@observation_in_multidiscrete Z integer_floats
              integer_digitize_contract separators 3 _ [25; 7; 0] _
              eq_refl Hfits eq_refl)
    as (states & nvec & Hr & Hspace & _ & Hlen & _ & Hbound).
  exists states, nvec. split; [exact Hr|]. split; [exact Hspace|].
  split; [exact Hlen|exact Hbound].
Defined.

Lemma short_observation_raises_witness :
  let separators := [[10; 20; 30]; [5]; []] in
  exists self, @__init__ Z integer_floats separators (Some 3) = Ok self /\
    observation self [25; 7] = Raise IndexError.
Proof.
  intros separators. eexists. split; [reflexivity|].
  apply (@short_observation_raises Z integer_floats separators 3);
    [reflexivity|discriminate|simpl; lia|reflexivity].
Defined.
End DiscretizationWrapperFacts.

(** * The typed torch function *)

Module TypedTorchFunctionFacts.
Import TypedTorchFunction.

Section WithTorch.
Context {tensor ndarray key other : Type} (numpy : tensor -> ndarray).
Abbreviation value := (@value tensor ndarray key other).

(** Induction on a value, with the property at hand for the elements of a
    tuple or list and for the values of the items of a dictionary. *)
Lemma value_ind' (P : value -> Prop) :
  (forall t, P (Tensor t)) ->
  (forall elements, Forall P elements -> P (Tuple elements)) ->
  (forall elements, Forall P elements -> P (List elements)) ->
  (forall items, Forall (fun item => P item.2) items -> P (Dict items)) ->
  (forall a, P (NDArray a)) ->
  (forall o, P (Other o)) ->
  forall v, P v.
Proof.
  intros Htensor Htuple Hlist Hdict Harray Hother.
  fix IH 1. intros [t|elements|elements|items|a|o].
  - apply Htensor.
  - apply Htuple. induction elements as [|v elements IHl]; constructor.
    + apply IH.
    + apply IHl.
  - apply Hlist. induction elements as [|v elements IHl]; constructor.
    + apply IH.
    + apply IHl.
  - apply Hdict. induction items as [|[k v] items IHl]; constructor.
    + apply IH.
    + apply IHl.
  - apply Harray.
  - apply Hother.
Qed.

Lemma existsb_fmap_false {A B} (f : A -> B) (p : B -> bool) l :
  Forall (fun x => p (f x) = false) l -> existsb p (f <$> l) = false.
Proof.
  induction 1 as [|x l Hx _ IH]; [done|].
  rewrite fmap_cons. cbn [existsb]. by rewrite Hx.
Qed.

(** X13: whatever the value, its image by [structural_map] contains no
    tensor: not as the value itself, not among the elements of its tuples
    and lists nor among the values of its dictionaries, at any depth. *)
Theorem structural_map_no_tensor (v : value) :
  has_tensor (structural_map numpy v) = false.
Proof.
  induction v as [t|elements IH|elements IH|items IH|a|o] using value_ind';
    simpl; try done.
  - by apply existsb_fmap_false.
  - by apply existsb_fmap_false.
  - by apply (existsb_fmap_false
                (fun item => (item.1, structural_map numpy item.2))
                (fun item => has_tensor item.2)).
Qed.

Lemma fmap_fixpoint {A} (f : A -> A) l :
  Forall (fun x => f x = x) l -> f <$> l = l.
Proof.
  induction 1 as [|x l Hx _ IH]; [done|].
  rewrite fmap_cons. by rewrite Hx, IH.
Qed.

Lemma structural_map_unchanged (v : value) :
  has_tensor v = false -> structural_map numpy v = v.
Proof.
  induction v as [t|elements IH|elements IH|items IH|a|o] using value_ind';
    simpl; try done.
  - intros Hfree. f_equal. apply fmap_fixpoint.
    induction IH as [|v elements Hv _ IHl]; [done|]. simpl in Hfree.
    apply orb_false_iff in Hfree as [? ?]. constructor; auto.
  - intros Hfree. f_equal. apply fmap_fixpoint.
    induction IH as [|v elements Hv _ IHl]; [done|]. simpl in Hfree.
    apply orb_false_iff in Hfree as [? ?]. constructor; auto.
  - intros Hfree. f_equal.
    apply (fmap_fixpoint (fun item => (item.1, structural_map numpy item.2))).
    induction IH as [|[k v] items Hv _ IHl]; [done|]. simpl in *.
    apply orb_false_iff in Hfree as [? ?]. constructor; [|auto].
    simpl. f_equal. auto.
Qed.

(** X14: [structural_map] returns a value without tensors as it is, with
    the same tuples, lists, dictionaries and keys, and so mapping a value
    twice gives what mapping it once gives. *)
Theorem structural_map_idempotent (v : value) :
  (has_tensor v = false -> structural_map numpy v = v) /\
  structural_map numpy (structural_map numpy v) = structural_map numpy v.
Proof.
  split; [apply structural_map_unchanged|].
  apply structural_map_unchanged, structural_map_no_tensor.
Qed.

Lemma typed_torch_function_Ok (types : list (type_ other)) nps :
  typed_torch_function types = Ok nps ->
  Forall2 (fun t np => type_map t = Some np) types nps.
Proof.
  revert nps. induction types as [|t types IH]; intros nps; simpl.
  - intros [= <-]. constructor.
  - destruct (type_map t) as [np|] eqn:Ht; [|done].
    destruct (typed_torch_function types) as [nps'|e]; [|done].
    intros [= <-]. constructor; [done|]. by apply IH.
Qed.




Context {arg kwargs E : Type} (to_tensor : arg -> np_type -> E + tensor).

Lemma to_tensors_length pairs tensors :
  to_tensors to_tensor pairs = inr tensors ->
  length tensors = length pairs.
Proof.
  revert tensors. induction pairs as [|[a typ] pairs IH]; intros tensors.
  - by intros [= <-].
  - simpl. destruct (to_tensor a typ); [done|].
    destruct (to_tensors to_tensor pairs); [done|].
    intros [= <-]. simpl. f_equal. by apply IH.
Qed.

(** X16: a function decorated with types that the decorator accepts
    raises [AssertionError] when it is called with a number of positional
    arguments other than the number of declared types, whatever the
    arguments and the function; and when a call returns, the wrapped
    function was given one tensor for each argument and the value returned
    is the image by [structural_map] of what it returned, hence without
    tensors. *)
Theorem call_checks_and_converts (types : list (type_ other)) nps
    (wrapped : list tensor -> kwargs -> E + value) (args : list arg) kw :
  typed_torch_function types = Ok nps ->
  (length args <> length types ->
   __call__ numpy to_tensor nps wrapped args kw = Raised AssertionError) /\
  (forall r, __call__ numpy to_tensor nps wrapped args kw = Returned r ->
     length args = length types /\ has_tensor r = false /\
     exists tensors v,
       length tensors = length args /\ wrapped tensors kw = inr v /\
       r = structural_map numpy v).
Proof.
  intros Hlen%typed_torch_function_Ok%Forall2_length. unfold __call__.
  destruct (Nat.eqb_spec (length nps) (length args)) as [Heq|Hne]; simpl.
  - split; [intros Hargs; congruence|]. intros r.
    destruct (to_tensors _ _) as [e|tensors] eqn:Htensors; [done|].
    destruct (wrapped tensors kw) as [e|v] eqn:Hcall; [done|].
    intros [= <-]. split; [congruence|].
    split; [apply structural_map_no_tensor|].
    exists tensors, v. split; [|done].
    apply to_tensors_length in Htensors.
    rewrite Htensors, length_zip_with. lia.
  - split; [done|]. intros r. done.
Qed.
End WithTorch.

(** A function of two arguments that returns a dictionary with a tensor
    and a tuple of a tensor and a number, with numbers for tensors. *)
Lemma call_checks_and_converts_witness :
  let types : list (type_ Z) := [torch_float; torch_long] in
  let wrapped (ts : list Z) (kw : unit) : unit + @value Z Z nat Z :=
    inr (Dict [(0%nat, Tensor (Z.of_nat (length ts)));
               (1%nat, Tuple [Tensor 7; Other 8])]) in
  let to_tensor (a : Z) (_ : np_type) : unit + Z := inr a in
  typed_torch_function types = Ok [np_float32; np_int64] /\
  __call__ Z.opp to_tensor [np_float32; np_int64] wrapped [1] ()
    = Raised AssertionError /\
  forall r,
    __call__ Z.opp to_tensor [np_float32; np_int64] wrapped [1; 2] ()
      = Returned r ->
    has_tensor r = false.
Proof.
  intros types wrapped to_tensor.
  assert (typed_torch_function types = Ok [np_float32; np_int64]) as Htypes
    by reflexivity.
  split; [exact Htypes|]. split.
  - apply (proj1 (call_checks_and_converts Z.opp to_tensor types _ wrapped
                    [1] () Htypes)).
    discriminate.
  - intros r Hr.
    apply (proj2 (call_checks_and_converts Z.opp to_tensor types _ wrapped
                    [1; 2] () Htypes) r Hr).
Defined.
End TypedTorchFunctionFacts.

(** * The evaluation environment *)

Module EvaluationEnvFacts.
Import EvaluationEnv.

Section WithReturns.
Context {R M : Type} (rzero : R) (radd : R -> R -> R).
Implicit Types (self : @evaluation_env R M) (c : @call R).

Lemma reset_evaluating start logging seeded self :
  evaluating self -> evaluating (reset rzero start logging seeded self).2.
Proof.
  intros Heval. unfold reset. destruct seeded; [done|].
  destruct (_evaluating_from self) as [from|] eqn:Hfrom; simpl.
  - destruct (_episode_running self) eqn:Hrun; simpl.
    { intros from'. rewrite Hfrom. intros [= <-]. by apply Heval. }
    rewrite andb_false_r. intros from'. simpl. intros [= <-].
    destruct (Heval from Hfrom) as (Hfrom0 & Hend & _).
    rewrite orb_true_r. done.
  - destruct start; simpl; [|done].
    intros from [= <-]. unfold episode. simpl.
    rewrite orb_true_r. repeat split; try done; lia.
Qed.

Lemma step_evaluating reward terminated truncated pygame_init quit self :
  evaluating self ->
  (forall code,
     (step radd reward terminated truncated pygame_init quit self).1.1
       <> Raises (SystemExit code)) ->
  evaluating
    (step radd reward terminated truncated pygame_init quit self).1.2.
Proof.
  intros Heval. unfold step.
  destruct (_episode_running self) eqn:Hrun; simpl; [|done].
  destruct (_evaluating_from self) as [from|] eqn:Hfrom; simpl.
  - destruct (Heval from Hfrom) as (Hfrom0 & Hend & Hret).
    destruct (_episode_return self) as [r|] eqn:Hr; [|by destruct Hret].
    simpl. destruct (terminated || truncated) eqn:Hdone; simpl.
    + unfold episode in *. simpl. rewrite length_app. simpl.
      destruct (Z.leb_spec (_evaluate_for self + from)
                  (Z.of_nat (length (_episode_returns self) + 1)));
        simpl; [intros Hexit; by destruct (Hexit 0)|].
      intros _ from'. simpl. intros [= <-]. unfold episode. simpl.
      rewrite length_app. simpl. repeat split; try done; lia.
    + intros _ from'. simpl. intros [= <-]. done.
  - rewrite !andb_false_r. simpl. intros _ from'. simpl. done.
Qed.

Lemma call_keeps_periods c self :
  _render_each (run_call rzero radd c self).2 = _render_each self /\
  _evaluate_for (run_call rzero radd c self).2 = _evaluate_for self /\
  _report_each (run_call rzero radd c self).2 = _report_each self.
Proof.
  destruct c as [start logging seeded|reward terminated truncated pi q];
    simpl.
  - unfold reset. destruct seeded; [done|].
    by destruct (_ && _).
  - unfold step. destruct (negb _); [done|]. simpl.
    by destruct (_ && _).
Qed.

(** The periods are the ones given to [__init__], and [evaluating] holds,
    in every state. *)
Lemma reachable_invariant render_each evaluate_for report_each verbose
    env_mode unwrapped_mode self :
  reachable rzero radd
    (__init__ render_each evaluate_for report_each verbose env_mode
       unwrapped_mode) self ->
  _render_each self = render_each /\
  _evaluate_for self = evaluate_for /\
  _report_each self = report_each /\
  evaluating self.
Proof.
  induction 1 as [|self c _ (Hre & Hef & Hrp & Heval) Hexit].
  - repeat split; done.
  - destruct (call_keeps_periods c self) as (-> & -> & ->).
    split; [done|]. split; [done|]. split; [done|].
    destruct c as [start logging seeded|reward terminated truncated pi q].
    + by apply reset_evaluating.
    + by apply step_evaluating.
Qed.

(** X17: [step] needs a running episode: on a new object it raises
    [RuntimeError]; after a [step] that returned with the episode terminated
    or truncated, every further [step] raises [RuntimeError], changes
    nothing and prints nothing, until [reset] is called; after a [reset]
    that returned, and after a [step] that returned without ending the
    episode, [step] does not raise [RuntimeError]. *)
Theorem step_needs_running_episode reward terminated truncated pygame_init
    quit :
  (forall render_each evaluate_for report_each verbose env_mode
          unwrapped_mode,
     let self : @evaluation_env R M :=
       __init__ render_each evaluate_for report_each verbose env_mode
         unwrapped_mode in
     step radd reward terminated truncated pygame_init quit self
       = (Raises RuntimeError, self, [])) /\
  (forall self self' lines reward' terminated' truncated' pygame_init' quit',
     step radd reward' terminated' truncated' pygame_init' quit' self
       = (Returns, self', lines) ->
     if terminated' || truncated'
     then step radd reward terminated truncated pygame_init quit self'
            = (Raises RuntimeError, self', [])
     else (step radd reward terminated truncated pygame_init quit self').1.1
            <> Raises RuntimeError) /\
  (forall self self' start_evaluation logging seeded,
     reset rzero start_evaluation logging seeded self = (Returns, self') ->
     (step radd reward terminated truncated pygame_init quit self').1.1
       <> Raises RuntimeError).
Proof.
  split; [done|]. split.
  - intros self self' lines reward' terminated' truncated' pi' q'.
    unfold step at 1.
    destruct (_episode_running self); simpl; [|done].
    destruct (_ && match _evaluating_from self with _ => _ end); [done|].
    intros [= <- _].
    destruct (terminated' || truncated'); unfold step; simpl; [done|].
    by destruct (_ && match _evaluating_from self with _ => _ end).
  - intros self self' start logging seeded. unfold reset.
    destruct seeded; [done|]. destruct (_ && _); [done|].
    intros [= <-]. unfold step. simpl.
    by destruct (_ && match _ with Some _ => _ | None => _ end).
Qed.



(** X19: once an evaluation for [evaluate_for >= 1] episodes has started,
    at the count [from], the count stays below [from + evaluate_for] as long
    as the process runs, and the [step] that ends the episode bringing the
    count to [from + evaluate_for] leaves with [sys.exit(0)], no other one
    does; the last line it prints is about exactly the [evaluate_for]
    returns appended since the evaluation started. *)
Theorem evaluation_ends_on_time render_each evaluate_for report_each
    verbose env_mode unwrapped_mode self from
    reward terminated truncated pygame_init quit :
  reachable rzero radd
    (__init__ render_each evaluate_for report_each verbose env_mode
       unwrapped_mode) self ->
  1 <= evaluate_for ->
  _evaluating_from self = Some from ->
  let result := step radd reward terminated truncated pygame_init quit self in
  from <= episode self < from + evaluate_for /\
  (result.1.1 = Raises (SystemExit 0) <->
   _episode_running self = true /\ terminated || truncated = true /\
   episode self + 1 = from + evaluate_for) /\
  (forall code, result.1.1 = Raises (SystemExit code) ->
     code = 0 /\
     let window := drop (Z.to_nat from) (_episode_returns result.1.2) in
     Z.of_nat (length window) = evaluate_for /\
     exists report, result.2 = report ++ [Evaluation evaluate_for window]).
Proof.
  intros (_ & Hef & _ & Heval)%reachable_invariant Hpos Hfrom result.
  destruct (Heval from Hfrom) as (Hfrom0 & Hend & Hret).
  rewrite Hef in Hend. specialize (Hend Hpos).
  split; [lia|]. subst result. unfold step.
  destruct (_episode_running self) eqn:Hrun; simpl.
  2: { split; [split; [done|by intros [? _]]|done]. }
  destruct (_episode_return self) as [r|] eqn:Hr; [|by destruct Hret].
  rewrite Hfrom, Hef. simpl.
  destruct (terminated || truncated) eqn:Hdone; simpl.
  - unfold episode in *. simpl. rewrite length_app. simpl.
    destruct (Z.leb_spec (evaluate_for + from)
                (Z.of_nat (length (_episode_returns self) + 1)));
      simpl.
    + split; [split; [intros _; repeat split; lia|done]|].
      intros code [= <-]. split; [done|].
      unfold slice_from_minus.
      destruct (Z.ltb_spec 0 evaluate_for); [|lia].
      rewrite length_app. simpl.
      replace (length (_episode_returns self) + 1 - Z.to_nat evaluate_for)%nat
        with (Z.to_nat from) by lia.
      split; [rewrite length_drop, length_app; simpl; lia|].
      eauto.
    + split; [split; [done|intros (_ & _ & ?); lia]|done].
  - split; [split; [done|by intros (_ & ? & _)]|done].
Qed.

(** X20: the start of an evaluation is final: once [_evaluating_from] is
    set, no call changes it, a [reset] with [start_evaluation] included;
    and from then on a [reset] during a running episode raises
    [RuntimeError] and changes nothing, as does at any time a [reset] with
    a seed. *)
Theorem evaluation_start_is_final self from :
  _evaluating_from self = Some from ->
  (forall c, _evaluating_from (run_call rzero radd c self).2 = Some from) /\
  (forall start_evaluation logging seeded,
     _episode_running self = true \/ seeded = true ->
     reset rzero start_evaluation logging seeded self
       = (Raises RuntimeError, self)).
Proof.
  intros Hfrom. split.
  - intros [start logging seeded|reward terminated truncated pi q]; simpl.
    + unfold reset. destruct seeded; [done|]. rewrite Hfrom. simpl.
      destruct (_episode_running self); simpl; [done|].
      by rewrite andb_false_r.
    + unfold step. destruct (negb _); [done|]. simpl.
      by destruct (_ && _).
  - intros start logging seeded Hrun. unfold reset.
    destruct seeded; [done|]. destruct Hrun as [->|?]; [|done].
    by rewrite Hfrom.
Qed.
End WithReturns.

(** An evaluation for two episodes that starts after one episode, the
    returns being 5, then 6 and 7. *)
Lemma step_needs_running_episode_witness :
  let self := (reset 0 false true false
                 (@__init__ Z unit 0 2 10 true human human)).2 in
  let ended := (step Z.add 5 true false false false self).1.2 in
  step Z.add 5 true false false false self = (Returns, ended, []) /\
  step Z.add 1 false false false false ended
    = (Raises RuntimeError, ended, []).
Proof.
  intros self ended.
  assert (step Z.add 5 true false false false self = (Returns, ended, []))
    as Hstep by reflexivity.
  split; [exact Hstep|].
  exact (proj1 (proj2 (step_needs_running_episode 0 Z.add 1 false false
                         false false))
           self ended [] 5 true false false false Hstep).
Defined.


Lemma evaluation_ends_on_time_witness :
  let self0 := @__init__ Z unit 0 2 10 true human human in
  let self1 := (run_call 0 Z.add (call_step 5 true false false false)
                  (run_call 0 Z.add (call_reset false true false) self0).2).2
  in
  let self2 := (run_call 0 Z.add (call_reset true false false) self1).2 in
  let self3 := (run_call 0 Z.add (call_step 6 true false false false)
                  self2).2 in
  let self4 := (run_call 0 Z.add (call_reset false false false) self3).2 in
  reachable 0 Z.add self0 self4 /\ _evaluating_from self4 = Some 1 /\
  (step Z.add 7 true false false false self4).1.1 = Raises (SystemExit 0) /\
  exists report,
    (step Z.add 7 true false false false self4).2
      = report ++ [Evaluation 2 [6; 7]].
Proof.
  intros self0 self1 self2 self3 self4.
  assert (reachable 0 Z.add self0 self4) as Hreach.
  { repeat (apply reachable_call; [|discriminate]). apply reachable_init. }
  assert (_evaluating_from self4 = Some 1) as Hfrom by reflexivity.
  destruct (evaluation_ends_on_time 0 Z.add 0 2 10 true human human self4 1
              7 true false false false Hreach ltac:(lia) Hfrom)
    as (_ & Hexit & Hline).
  split; [exact Hreach|]. split; [exact Hfrom|].
  assert ((step Z.add 7 true false false false self4).1.1
          = Raises (SystemExit 0)) as Hout.
  { apply Hexit. repeat split; reflexivity. }
  split; [exact Hout|].
  destruct (Hline 0 Hout) as (_ & _ & report & Hreport).
  exists report. exact Hreport.
Defined.

Lemma evaluation_start_is_final_witness :
  let self := (reset 0 true false false
                 (@__init__ Z unit 0 2 10 true human human)).2 in
  _evaluating_from self = Some 0 /\
  _evaluating_from (run_call 0 Z.add (call_reset true true false) self).2
    = Some 0 /\
  reset 0 true true false self = (Raises RuntimeError, self).
Proof.
  intros self.
  assert (_evaluating_from self = Some 0) as Hfrom by reflexivity.
  destruct (evaluation_start_is_final 0 Z.add self 0 Hfrom) as [Hkeep Hraise].
  split; [exact Hfrom|]. split; [apply Hkeep|].
  apply Hraise. by left.
Defined.
End EvaluationEnvFacts.

(** * The wrappers of CartPole and MountainCar *)

Lemma integer_linspace_contract : linspace_contract integer_linspace.
Proof.
  intros low high num array. unfold integer_linspace.
  destruct (Z.ltb_spec num 0); [done|]. intros [= <-].
  rewrite length_fmap, length_seqZ. lia.
Qed.

Lemma inner_linspace_length {V} (linspace : V -> V -> Z -> result (list V))
    low high bins separator :
  linspace_contract linspace ->
  inner_linspace linspace low high bins = Ok separator ->
  1 <= bins ->
  Z.of_nat (length separator) = bins - 1.
Proof.
  intros Hlinspace. unfold inner_linspace.
  destruct (linspace low high (bins + 1)) as [array|e] eqn:Harray; [|done].
  apply Hlinspace in Harray. cbn. intros [= <-] Hbins.
  unfold inner_points. rewrite length_drop, length_take. lia.
Qed.

Module DiscreteWrappersFacts.
Import DiscretizationWrapper.

Section WithFloats.
Context {V : Type} `{Floats V}.
Context (linspace : V -> V -> Z -> result (list V)) (decimal : Z -> nat -> V).
Hypothesis Hlinspace : linspace_contract linspace.

(** X21: the wrapper of CartPole made with [bins >= 1] has [bins - 1]
    separators on each of its four axes and declares the space
    [Discrete(bins ** 4)]. *)
Theorem cart_pole_states bins self :
  DiscreteCartPoleWrapper.__init__ linspace decimal bins = Ok self ->
  1 <= bins ->
  observation_space self = Discrete (bins ^ 4) /\
  length (_separators self) = 4%nat /\
  Forall (fun separator => Z.of_nat (length separator) = bins - 1)
    (_separators self).
Proof.
  unfold DiscreteCartPoleWrapper.__init__. intros Hinit Hbins.
  destruct (inner_linspace linspace (decimal (-24) 1) (decimal 24 1) bins)
    as [s1|e] eqn:H1; [|done].
  cbn in Hinit.
  destruct (inner_linspace linspace (decimal (-3) 0) (decimal 3 0) bins)
    as [s2|e] eqn:H2; [|done].
  cbn in Hinit.
  destruct (inner_linspace linspace (decimal (-2) 1) (decimal 2 1) bins)
    as [s3|e] eqn:H3; [|done].
  cbn in Hinit.
  destruct (inner_linspace linspace (decimal (-2) 0) (decimal 2 0) bins)
    as [s4|e] eqn:H4; [|done].
  cbn in Hinit. injection Hinit as <-. simpl.
  apply (inner_linspace_length _ _ _ _ _ Hlinspace) in H1, H2, H3, H4;
    try done.
  split; [|split; [done|by repeat constructor]].
  f_equal. rewrite H1, H2, H3, H4. ring.
Qed.

Lemma mountain_car_explicit bins tiles self :
  DiscreteMountainCarWrapper.__init__ linspace decimal (Some bins) tiles
    = Ok self ->
  1 <= bins ->
  observation_space self =
    match tiles with
    | None => Discrete (bins ^ 2)
    | Some tiles =>
        MultiDiscrete
          ((fun i => bins ^ 2 + i * (bins + 1) ^ 2) <$> seqZ 0 tiles)
    end.
Proof.
  unfold DiscreteMountainCarWrapper.__init__. intros Hinit Hbins.
  destruct (inner_linspace linspace (decimal (-12) 1) (decimal 6 1) bins)
    as [s1|e] eqn:H1; [|done].
  cbn in Hinit.
  destruct (inner_linspace linspace (decimal (-7) 2) (decimal 7 2) bins)
    as [s2|e] eqn:H2; [|done].
  cbn in Hinit.
  apply (inner_linspace_length _ _ _ _ _ Hlinspace) in H1, H2; try done.
  assert (cells 1 [s1; s2] = bins ^ 2) as Hfirst
    by (unfold cells; simpl; rewrite H1, H2; ring).
  assert (cells 2 [s1; s2] = (bins + 1) ^ 2) as Hrest
    by (unfold cells; simpl; rewrite H1, H2; ring).
  destruct tiles as [tiles|].
  - apply DiscretizationWrapperFacts.init_tiled in Hinit
      as (offsets & _ & ->).
    simpl. by rewrite Hfirst, Hrest.
  - rewrite DiscretizationWrapperFacts.init_plain in Hinit.
    injection Hinit as <-. simpl. by rewrite Hfirst.
Qed.

(** X22: the wrapper of MountainCar made with [bins >= 1] declares
    [Discrete(bins ** 2)] without tiles and, with tiles, the bounds
    [bins ** 2 + i * (bins + 1) ** 2]; when [bins] is not given it is 24
    without tiles or with one tile at most, 12 with two or three tiles and
    8 with more, hence 576 states without tiles. *)
Theorem mountain_car_states :
  (forall bins tiles self,
     DiscreteMountainCarWrapper.__init__ linspace decimal (Some bins) tiles
       = Ok self ->
     1 <= bins ->
     observation_space self =
       match tiles with
       | None => Discrete (bins ^ 2)
       | Some tiles =>
           MultiDiscrete
             ((fun i => bins ^ 2 + i * (bins + 1) ^ 2) <$> seqZ 0 tiles)
       end) /\
  (forall tiles self,
     DiscreteMountainCarWrapper.__init__ linspace decimal None tiles
       = Ok self ->
     observation_space self =
       match tiles with
       | None => Discrete 576
       | Some tiles =>
           MultiDiscrete
             ((fun i =>
                 if tiles <=? 1 then 576 + i * 625
                 else if tiles <=? 3 then 144 + i * 169
                 else 64 + i * 81) <$> seqZ 0 tiles)
       end).
Proof.
  split; [apply mountain_car_explicit|].
  intros [tiles|] self Hinit.
  - destruct (Z.leb_spec tiles 1); [|destruct (Z.leb_spec tiles 3)].
    + apply (mountain_car_explicit 24 (Some tiles)); [|done].
      unfold DiscreteMountainCarWrapper.__init__ in *.
      destruct (Z.leb_spec tiles 1); [done|lia].
    + apply (mountain_car_explicit 12 (Some tiles)); [|done].
      unfold DiscreteMountainCarWrapper.__init__ in *.
      destruct (Z.leb_spec tiles 1); [lia|].
      destruct (Z.leb_spec tiles 3); [done|lia].
    + apply (mountain_car_explicit 8 (Some tiles)); [|done].
      unfold DiscreteMountainCarWrapper.__init__ in *.
      destruct (Z.leb_spec tiles 1); [lia|].
      destruct (Z.leb_spec tiles 3); [lia|done].
  - by apply (mountain_car_explicit 24 None).
Qed.
End WithFloats.

#[local] Existing Instance integer_floats.

(** The wrapper of CartPole with its 8 bins: 4096 states. *)
Lemma cart_pole_states_witness :
  exists self,
    DiscreteCartPoleWrapper.__init__ integer_linspace (fun m _ => m) 8
      = Ok self /\
    observation_space self = Discrete 4096.
Proof.
  eexists. split; [reflexivity|].
  apply (cart_pole_states integer_linspace (fun m _ => m)
           integer_linspace_contract 8 _ eq_refl).
  discriminate.
Defined.

(** The wrapper of MountainCar with 10 bins and with the bins it takes
    for 2 tiles. *)
Lemma mountain_car_states_witness :
  (exists self,
     DiscreteMountainCarWrapper.__init__ integer_linspace (fun m _ => m)
       (Some 10) None = Ok self /\
     observation_space self = Discrete 100) /\
  (exists self,
     DiscreteMountainCarWrapper.__init__ integer_linspace (fun m _ => m)
       None (Some 2) = Ok self /\
     observation_space self = MultiDiscrete [144; 313]).
Proof.
  destruct (mountain_car_states integer_linspace (fun m _ => m)
              integer_linspace_contract) as [Hexplicit Hdefault].
  split.
  - eexists. split; [reflexivity|].
    apply (Hexplicit 10 None _ eq_refl). discriminate.
  - eexists. split; [reflexivity|].
    apply (Hdefault (Some 2) _ eq_refl).
Defined.
End DiscreteWrappersFacts.
